(** * pydidas multiprocessing core: worker loop and application runner

    Shallow embedding of
    - [pydidas/multiprocessing/app_processor_.py] (function [app_processor]),
    - [pydidas/multiprocess/app_runner.py] (class [AppRunner]),
    together with the shared-buffer behaviour of [ExecuteWorkflowApp] that
    [tests/apps/test_execute_workflow_app.py] exercises.

    Queues are FIFO lists living in a store shared with the other processes;
    the activity of those processes is an explicit schedule of queue
    operations.  Every call the worker makes is recorded in a trace, so that
    statements about what the worker does and does not do are statements about
    that trace. *)

From stdpp Require Import base option list gmap strings pretty.
From Stdlib Require Import ZArith Floats.

(** ** The Application contract *)

(** The hooks of the opaque Application object.  The object is mutable, so
    each hook takes the instance and returns the instance it leaves behind;
    [None] stands for a raised exception. *)
Class Application (App Params Config Task Payload : Type) := {
  (* app(app_params, slave_mode=...) *)
  new_app : Params → bool → option App;
  (* _app._config = app_config *)
  set_config : Config → App → App;
  multiprocessing_pre_run : App → option App;
  multiprocessing_pre_cycle : Task → App → option App;
  multiprocessing_carryon : App → option (bool * App);
  multiprocessing_func : Task → App → option (Payload * App);
}.

Module Processor.

Section WithApplication.
Context {App Params Config Task Payload : Type}.
Context {app : Application App Params Config Task Payload}.

(** A result envelope [[_arg, _results]]; the end marker is [[None, None]]. *)
Definition Envelope : Type := option Task * option Payload.

Definition end_marker : Envelope := (None, None).
Definition result_envelope (t : Task) (r : Payload) : Envelope :=
  (Some t, Some r).

(** The four queues handed to [app_processor].  An item of the input queue
    is a task id or the sentinel [None]. *)
Record Queues := mkQueues {
  input_queue : list (option Task);
  output_queue : list Envelope;
  stop_queue : list Z;
  aborted_queue : list Z;
}.

(** What the worker does, in program order.  Durations are in
    milliseconds: [time.sleep(0.005)] is [Sleep 5]. *)
Inductive Event :=
| StopGetNowait (tok : option Z)
| AbortedPut (v : Z)
| InputGetNowait (item : option (option Task))
| Sleep (ms : Z)
| PreCycle (t : Task)
| Carryon (b : bool)
| Func (t : Task)
| OutputPut (e : Envelope).

(** The worker: the shared queues, its local variables and its trace.
    [_arg = None] is the unbound local. *)
Record Worker := mkWorker {
  queues : Queues;
  _app : App;
  _app_carryon : bool;
  _arg : option Task;
  trace : list Event;
}.

Definition log (evs : list Event) (w : Worker) : Worker :=
  mkWorker (queues w) (_app w) (_app_carryon w) (_arg w) (trace w ++ evs).
Definition with_queues (q : Queues) (w : Worker) : Worker :=
  mkWorker q (_app w) (_app_carryon w) (_arg w) (trace w).
Definition with_app (a : App) (w : Worker) : Worker :=
  mkWorker (queues w) a (_app_carryon w) (_arg w) (trace w).
Definition with_carryon (b : bool) (w : Worker) : Worker :=
  mkWorker (queues w) (_app w) b (_arg w) (trace w).
Definition with_arg (t : Task) (w : Worker) : Worker :=
  mkWorker (queues w) (_app w) (_app_carryon w) (Some t) (trace w).

Definition pop_stop (q : Queues) : Queues :=
  mkQueues (input_queue q) (output_queue q) (tail (stop_queue q))
           (aborted_queue q).
Definition pop_input (q : Queues) : Queues :=
  mkQueues (tail (input_queue q)) (output_queue q) (stop_queue q)
           (aborted_queue q).
Definition pop_output (q : Queues) : Queues :=
  mkQueues (input_queue q) (tail (output_queue q)) (stop_queue q)
           (aborted_queue q).
Definition pop_aborted (q : Queues) : Queues :=
  mkQueues (input_queue q) (output_queue q) (stop_queue q)
           (tail (aborted_queue q)).
Definition put_input (x : option Task) (q : Queues) : Queues :=
  mkQueues (input_queue q ++ [x]) (output_queue q) (stop_queue q)
           (aborted_queue q).
Definition put_output (e : Envelope) (q : Queues) : Queues :=
  mkQueues (input_queue q) (output_queue q ++ [e]) (stop_queue q)
           (aborted_queue q).
Definition put_stop (v : Z) (q : Queues) : Queues :=
  mkQueues (input_queue q) (output_queue q) (stop_queue q ++ [v])
           (aborted_queue q).
Definition put_aborted (v : Z) (q : Queues) : Queues :=
  mkQueues (input_queue q) (output_queue q) (stop_queue q)
           (aborted_queue q ++ [v]).

(** How one pass through the body of [while True] ends. *)
Inductive Ctl := Continue | Break | Raised.

(** Lines 110-115: the carry-on check and, on go, the computation. *)
Definition run_cycle (w : Worker) : Ctl * Worker :=
  match multiprocessing_carryon (_app w) with
  | None => (Raised, w)
  | Some (b, a) =>
      let w := log [Carryon b] (with_carryon b (with_app a w)) in
      if b then
        match _arg w with
        | None => (Raised, w)
        | Some t =>
            let w := log [Func t] w in
            match multiprocessing_func t (_app w) with
            | None => (Raised, w)
            | Some (r, a') =>
                (Continue,
                 log [OutputPut (result_envelope t r)]
                   (with_queues (put_output (result_envelope t r) (queues w))
                      (with_app a' w)))
            end
        end
      else (Continue, w)
  end.

(** Lines 89-115: one pass through the body of the main loop. *)
Definition iteration (w : Worker) : Ctl * Worker :=
  match stop_queue (queues w) with
  | tok :: _ =>
      (Break,
       log [StopGetNowait (Some tok); AbortedPut 1]
         (with_queues (put_aborted 1 (pop_stop (queues w))) w))
  | [] =>
      let w := log [StopGetNowait None] w in
      if _app_carryon w then
        match input_queue (queues w) with
        | [] => (Continue, log [InputGetNowait None; Sleep 5] w)
        | None :: _ =>
            (Break,
             log [InputGetNowait (Some None); OutputPut end_marker]
               (with_queues (put_output end_marker (pop_input (queues w))) w))
        | Some t :: _ =>
            let w := log [InputGetNowait (Some (Some t)); PreCycle t]
                       (with_arg t (with_queues (pop_input (queues w)) w)) in
            match multiprocessing_pre_cycle t (_app w) with
            | None => (Raised, w)
            | Some a => run_cycle (with_app a w)
            end
        end
      else run_cycle w
  end.

(** Queue operations of the other processes: the controller feeding tasks
    and stop tokens and receiving results and acknowledgments, sibling
    workers taking tasks and stop tokens and putting results.

    [EnvOutputBuffered] is no operation on a queue.  A
    [multiprocessing.Queue] hands what is put on it to a feeder thread,
    which writes it to the pipe in its own time; [EnvOutputBuffered] says
    that the feeder threads have not written the envelopes on the output
    queue to the pipe yet, so that a poll of the pipe made at this point
    finds no data. *)
Inductive EnvAction :=
| EnvPutInput (x : option Task)
| EnvGetInput
| EnvPutStop (v : Z)
| EnvGetStop
| EnvPutOutput (e : Envelope)
| EnvGetOutput
| EnvGetAborted
| EnvOutputBuffered.

Definition env_queues (a : EnvAction) (q : Queues) : Queues :=
  match a with
  | EnvPutInput x => put_input x q
  | EnvGetInput => pop_input q
  | EnvPutStop v => put_stop v q
  | EnvGetStop => pop_stop q
  | EnvPutOutput e => put_output e q
  | EnvGetOutput => pop_output q
  | EnvGetAborted => pop_aborted q
  | EnvOutputBuffered => q
  end.

Definition env_step (w : Worker) (a : EnvAction) : Worker :=
  with_queues (env_queues a (queues w)) w.

Definition env_steps (acts : list EnvAction) (w : Worker) : Worker :=
  foldl env_step w acts.

(** A schedule has one entry per pass through a loop: the queue operations
    of the other processes since the previous pass. *)
Definition Schedule : Type := list (list EnvAction).

(** How a loop stands when the schedule has been played: left (with the
    part of the schedule not yet played), ended by an exception that
    propagates out of [app_processor], or still running. *)
Inductive LoopExit :=
| LoopLeft (w : Worker) (rest : Schedule)
| LoopRaised (w : Worker)
| LoopRunning (w : Worker).

(** Lines 88-115: [while True]. *)
Fixpoint main_loop (sched : Schedule) (w : Worker) : LoopExit :=
  match sched with
  | [] => LoopRunning w
  | acts :: sched' =>
      match iteration (env_steps acts w) with
      | (Continue, w') => main_loop sched' w'
      | (Break, w') => LoopLeft w' sched'
      | (Raised, w') => LoopRaised w'
      end
  end.

Definition is_buffered (a : EnvAction) : bool :=
  match a with EnvOutputBuffered => true | _ => false end.

(** [output_queue.empty()] as the worker gets it.  [empty()] polls the
    pipe.  It answers [True] when nothing is on the queue, and also while
    what has been put is still with the feeder threads, which the head
    entry of the schedule says with [EnvOutputBuffered]: an envelope the
    worker has just put need not show. *)
Definition output_queue_empty (sched : Schedule) (w : Worker) : bool :=
  bool_decide (output_queue (queues w) = []) ||
  match sched with
  | acts :: _ => existsb is_buffered acts
  | [] => false
  end.

(** Lines 117-118: [while _wait_for_output and not output_queue.empty()].
    The head entry of the schedule says what the poll of a pass finds and
    holds what happens during the sleep that follows; a pass that leaves
    the loop leaves the entry unplayed. *)
Fixpoint wait_loop (_wait_for_output : bool) (sched : Schedule) (w : Worker)
  : LoopExit :=
  if _wait_for_output && negb (output_queue_empty sched w)
  then
    match sched with
    | [] => LoopRunning w
    | acts :: sched' =>
        wait_loop _wait_for_output sched' (env_steps acts (log [Sleep 50] w))
    end
  else LoopLeft w sched.

(** Lines 82-87: the keyword argument with its default, the worker's own
    instance built in slave mode, its config attached, and the pre-run
    hook.  [None] is an exception raised before the loop is entered. *)
Definition wait_for_output_queue (kwargs : gmap string bool) : bool :=
  default true (kwargs !! "wait_for_output_queue").

Definition start_worker (qs : Queues) (app_params : Params)
    (app_config : Config) : option Worker :=
  a ← new_app app_params true;
  a' ← multiprocessing_pre_run (set_config app_config a);
  Some (mkWorker qs a' true None []).

(** [app_processor], lines 82-119.  The class [app] is the [Application]
    instance in scope. *)
Definition app_processor (qs : Queues) (app_params : Params)
    (app_config : Config) (kwargs : gmap string bool) (sched : Schedule)
  : option LoopExit :=
  let _wait_for_output := wait_for_output_queue kwargs in
  w ← start_worker qs app_params app_config;
  Some match main_loop sched w with
       | LoopLeft w' rest => wait_loop _wait_for_output rest w'
       | stuck => stuck
       end.

Definition final_worker (x : LoopExit) : Worker :=
  match x with
  | LoopLeft w _ => w
  | LoopRaised w => w
  | LoopRunning w => w
  end.

(** *** Reading a trace *)

(** The items this worker took from the input queue, in order. *)
Fixpoint inputs_taken (tr : list Event) : list (option Task) :=
  match tr with
  | [] => []
  | InputGetNowait (Some x) :: tr' => x :: inputs_taken tr'
  | _ :: tr' => inputs_taken tr'
  end.

(** The envelopes this worker put on the output queue, in order. *)
Fixpoint outputs_put (tr : list Event) : list Envelope :=
  match tr with
  | [] => []
  | OutputPut e :: tr' => e :: outputs_put tr'
  | _ :: tr' => outputs_put tr'
  end.

(** What the worker did after it first saw a stop token, if it saw one. *)
Fixpoint after_stop (tr : list Event) : option (list Event) :=
  match tr with
  | [] => None
  | StopGetNowait (Some _) :: tr' => Some tr'
  | _ :: tr' => after_stop tr'
  end.

Definition is_sleep (e : Event) : bool :=
  match e with Sleep _ => true | _ => false end.

Definition is_task_handling (e : Event) : bool :=
  match e with
  | InputGetNowait _ | PreCycle _ | Carryon _ | Func _ | OutputPut _ => true
  | _ => false
  end.

Definition puts_stop (a : EnvAction) : bool :=
  match a with EnvPutStop _ => true | _ => false end.

(** A schedule during which nobody puts a stop token. *)
Definition no_stop_sent (sched : Schedule) : Prop :=
  Forall (Forall (λ a, puts_stop a = false)) sched.

(** What the other processes alone make of the queues during a schedule. *)
Definition env_only (sched : Schedule) (q : Queues) : Queues :=
  foldl (λ q a, env_queues a q) q (concat sched).

(** Every item taken from the input queue has its envelope on the output
    queue, except the task the worker holds while its carry-on check says
    no. *)
Definition accounted (w : Worker) : Prop :=
  if _app_carryon w
  then inputs_taken (trace w) = (outputs_put (trace w)).*1
  else ∃ t, _arg w = Some t ∧
         inputs_taken (trace w) = (outputs_put (trace w)).*1 ++ [Some t].

(** The instance after [n] consecutive carry-on checks that all said no. *)
Inductive deferred : nat → App → App → Prop :=
| deferred_O a : deferred 0 a a
| deferred_S n a a' a'' :
    multiprocessing_carryon a = Some (false, a') →
    deferred n a' a'' →
    deferred (S n) a a''.

(** The instance and the payload after one task went through pre-cycle,
    a positive carry-on check and the computation. *)
Definition process_task (t : Task) (a : App) : option (Payload * App) :=
  a1 ← multiprocessing_pre_cycle t a;
  ba ← multiprocessing_carryon a1;
  multiprocessing_func t ba.2.

(** The envelopes of a run of tasks on one instance, each computed on the
    instance the previous task left behind. *)
Fixpoint results_of (ts : list Task) (a : App) : list Envelope :=
  match ts with
  | [] => []
  | t :: ts' =>
      match process_task t a with
      | Some (r, a') => result_envelope t r :: results_of ts' a'
      | None => []
      end
  end.

(** *** Further readings of a run *)

(** Every envelope put answers an item taken, in the order taken, and at
    most one item taken is still without its envelope. *)
Definition at_most_one_pending (w : Worker) : Prop :=
  ∃ pending : list (option Task),
    inputs_taken (trace w) = (outputs_put (trace w)).*1 ++ pending ∧
    length pending ≤ 1.

(** Operations of the other processes on the input or the output queue. *)
Definition touches_io (a : EnvAction) : bool :=
  match a with
  | EnvPutInput _ | EnvGetInput | EnvPutOutput _ | EnvGetOutput => true
  | _ => false
  end.

(** Operations of the other processes that give the worker something to
    react to: a new item on the input queue or a stop token. *)
Definition feeds (a : EnvAction) : bool :=
  match a with
  | EnvPutInput _ | EnvPutStop _ => true
  | _ => false
  end.

(** The controller takes one envelope from the output queue during each
    sleep of the waiting worker; [lags] says for each poll whether it comes
    while the envelopes are still with the feeder thread. *)
Definition drain_schedule (lags : list bool) : Schedule :=
  (λ lag : bool,
     if lag then [EnvOutputBuffered; EnvGetOutput] else [EnvGetOutput])
  <$> lags.


End WithApplication.

Arguments Envelope : clear implicits.
Arguments Queues : clear implicits.
Arguments Event : clear implicits.
Arguments Worker : clear implicits.
Arguments EnvAction : clear implicits.
Arguments LoopExit : clear implicits.
Arguments Schedule : clear implicits.

(** *** Two small Applications

    [identity_app] is the computation of [test_run_plain] ([lambda x: x])
    behind an always-go carry-on check.  [waiting_app] holds the number of
    carry-on checks that will still say no, as [MpTestApp] does in
    [test_mp_wait] (first [False], then [True]); its computation doubles the
    task id. *)
#[export] Instance identity_app : Application unit unit unit Z Z := {
  new_app _ _ := Some ();
  set_config _ a := a;
  multiprocessing_pre_run a := Some a;
  multiprocessing_pre_cycle _ a := Some a;
  multiprocessing_carryon a := Some (true, a);
  multiprocessing_func t a := Some (t, a);
}.

#[export] Instance waiting_app : Application nat nat unit Z Z := {
  new_app n _ := Some n;
  set_config _ a := a;
  multiprocessing_pre_run a := Some a;
  multiprocessing_pre_cycle _ a := Some a;
  multiprocessing_carryon a :=
    match a with O => Some (true, O) | S k => Some (false, k) end;
  multiprocessing_func t a := Some ((2 * t)%Z, a);
}.

(** [strict_app] counts the tasks it has computed and raises on a negative
    task id, as an index out of range does; its carry-on check always says
    yes. *)
#[export] Instance strict_app : Application Z unit unit Z Z := {
  new_app _ _ := Some 0%Z;
  set_config _ a := a;
  multiprocessing_pre_run a := Some a;
  multiprocessing_pre_cycle _ a := Some a;
  multiprocessing_carryon a := Some (true, a);
  multiprocessing_func t a :=
    if bool_decide (t < 0)%Z then None else Some (t, (a + 1)%Z);
}.

(** Queues holding the tasks [0], [1], [2] and the sentinel, as
    [put_ints_in_queue] fills them. *)
Definition batch_queues : Queues Z Z :=
  mkQueues [Some 0%Z; Some 1%Z; Some 2%Z; None] [] [] [].

(** Queues holding the single task [5]. *)
Definition one_task_queues : Queues Z Z := mkQueues [Some 5%Z] [] [] [].

(** A [waiting_app] worker at the top of the loop, task [5] waiting on the
    input queue, with two refusals of the carry-on check still to come. *)
Definition patient_worker : Worker nat Z Z :=
  mkWorker one_task_queues 2 true None [].

(** Queues whose second task, [-1], makes [strict_app] raise. *)
Definition faulty_queues : Queues Z Z :=
  mkQueues [Some 0%Z; Some (-1)%Z; Some 2%Z; None] [] [] [].

(** An input queue fed for two workers: a task and a sentinel for each. *)
Definition two_worker_queues : Queues Z Z :=
  mkQueues [Some 0%Z; None; Some 1%Z; None] [] [] [].

(** A worker that has left the main loop with two envelopes still on the
    output queue. *)
Definition waiting_worker : Worker unit Z Z :=
  mkWorker (mkQueues [] [(Some 0%Z, Some 0%Z); (None, None)] [] [])
    () true None [].

(** A worker at the top of the loop with all queues empty. *)
Definition idle_worker : Worker unit Z Z :=
  mkWorker (mkQueues [] [] [] []) () true None [].

(** The controller sends the stop token after the worker's first pass. *)
Definition stop_after_first_pass : Schedule Z Z := [[]; [EnvPutStop 1]].

(** The worker's poll of the output queue comes before the feeder thread
    has written the envelope just put to the pipe. *)
Definition poll_before_flush : Schedule Z Z := [[]; [EnvOutputBuffered]].

End Processor.

(** ** The application runner ([AppRunner]) *)

Module AppRunner.

Inductive Exception :=
| RuntimeError (msg : string)
| KeyError (msg : string)
| TypeError (msg : string)
| OtherError (msg : string).

(** What [AppRunner] inherits from its base class [WorkerController]: the
    running flag and the two control methods [__check_progress] calls. *)
Class WorkerController (WC : Type) := {
  _flag_running : WC → bool;
  suspend : WC → WC;
  stop : WC → WC;
}.

(** What [AppRunner] uses of the bound Application: the [BaseApp] instance
    test, attribute lookup, a method call by name with its arguments, and
    [set_param_value].  A call returns the instance it leaves behind. *)
Class BaseApp (AppT Value : Type) := {
  isinstance_BaseApp : AppT → bool;
  hasattr : AppT → string → bool;
  call_method :
    string → list Value → gmap string Value → AppT → (Exception + Value) * AppT;
  set_param_value : string → Value → AppT → (Exception + unit) * AppT;
}.

Section WithClasses.
Context {WC AppT Value : Type}.
Context `{!WorkerController WC, !BaseApp AppT Value}.

Record AppRunner := mkAppRunner {
  controller : WC;
  __app : AppT;
}.

(** A method inherited from [WorkerController], run on an [AppRunner]. *)
Definition inherited (method : WC → WC) (self : AppRunner) : AppRunner :=
  mkAppRunner (method (controller self)) (__app self).

Definition running_message : string :=
  "Cannot call Application methods while the Application is running. Please call .stop() on the AppRunner first.".

Definition dquote : string := String (Ascii.ascii_of_nat 34) EmptyString.

Definition no_method_message (method_name : string) : string :=
  "The App does not have a method with name " +:+ dquote +:+ method_name
    +:+ dquote +:+ ".".

Definition not_set_message : string :=
  "Application is not an instance of BaseApp. Please set application first.".

(** Lines 172-177. *)
Definition __check_is_running (self : AppRunner) : option Exception :=
  if _flag_running (controller self) then Some (RuntimeError running_message)
  else None.

(** Lines 179-183. *)
Definition __check_app_method_name (self : AppRunner) (method_name : string)
  : option Exception :=
  if hasattr (__app self) method_name then None
  else Some (KeyError (no_method_message method_name)).

(** Lines 185-192. *)
Definition __check_app_is_set (self : AppRunner) : option Exception :=
  if isinstance_BaseApp (__app self) then None
  else Some (TypeError not_set_message).

(** Lines 87-114. *)
Definition call_app_method (method_name : string) (args : list Value)
    (kwargs : gmap string Value) (self : AppRunner)
  : (Exception + Value) * AppRunner :=
  match __check_is_running self with
  | Some e => (inl e, self)
  | None =>
      match __check_app_method_name self method_name with
      | Some e => (inl e, self)
      | None =>
          let (_result, a) := call_method method_name args kwargs (__app self) in
          (_result, mkAppRunner (controller self) a)
      end
  end.

(** Lines 116-128. *)
Definition set_app_param (param_name : string) (value : Value)
    (self : AppRunner) : (Exception + unit) * AppRunner :=
  match __check_app_is_set self with
  | Some e => (inl e, self)
  | None =>
      let (r, a) := set_param_value param_name value (__app self) in
      (r, mkAppRunner (controller self) a)
  end.

(** Lines 157-170. *)
Definition __check_progress (progress : float) (self : AppRunner) : AppRunner :=
  if (1 <=? progress)%float then inherited stop (inherited suspend self)
  else self.

End WithClasses.

Arguments AppRunner : clear implicits.

(** *** A small controller and Application

    The controller records the calls it receives and drops its running flag
    on [stop]; the Application is a dictionary of parameter values whose one
    method, [clear], empties it and returns how many entries it held, and
    whose [set_param_value] fails on an unknown key. *)
Inductive ControlCall := CallSuspend | CallStop.

Record TestController := mkTestController {
  test_running : bool;
  test_calls : list ControlCall;
}.

#[export] Instance test_controller : WorkerController TestController := {
  _flag_running c := test_running c;
  suspend c := mkTestController (test_running c) (test_calls c ++ [CallSuspend]);
  stop c := mkTestController false (test_calls c ++ [CallStop]);
}.

#[export] Instance test_app : BaseApp (gmap string Z) Z := {
  isinstance_BaseApp _ := true;
  hasattr _ name := bool_decide (name = "clear");
  call_method name args kwargs a :=
    if bool_decide (name = "clear") then (inr (Z.of_nat (size a)), ∅)
    else (inl (OtherError name), a);
  set_param_value name v a :=
    match a !! name with
    | Some _ => (inr (), <[name:=v]> a)
    | None => (inl (KeyError name), a)
    end;
}.

(** A runner in the running state and one that has been stopped, each bound
    to an Application with the single parameter [n]. *)
Definition running_runner : AppRunner TestController (gmap string Z) :=
  mkAppRunner (mkTestController true []) {["n" := 1%Z]}.

Definition stopped_runner : AppRunner TestController (gmap string Z) :=
  mkAppRunner (mkTestController false []) {["n" := 1%Z]}.

End AppRunner.

(** ** The shared result buffer of [ExecuteWorkflowApp] *)

Module SharedBuffer.

Section WithData.
Context {Data : Type}.

(** Modelled from the spec: the shared result buffer ([ExecuteWorkflowApp]
    itself is not part of the listing, only its tests are).  [N] slots and
    one flag per slot, [0] for free or consumed and [1] for written and not
    yet consumed. *)
Record Buffer := mkBuffer {
  flag : list Z;
  slots : list Data;
}.

(** Modelled from the spec: a buffer of [n] free slots, as [prepare_run]
    leaves it ([test_write_results_to_shared_arrays]: all zero). *)
Definition fresh (n : nat) (zero : Data) : Buffer :=
  mkBuffer (replicate n 0%Z) (replicate n zero).

(** Modelled from the spec: the slot a producer takes is one whose flag is
    [0]; the tests see slot [0] taken first and slot [1] next
    ([test_multiprocessing_func__metadata_set]), which is the first free
    one. *)
Fixpoint first_free (fl : list Z) : option nat :=
  match fl with
  | [] => None
  | f :: fl' => if bool_decide (f = 0%Z) then Some 0 else S <$> first_free fl'
  end.

(** Modelled from the spec: [multiprocessing_func] writes its result into a
    free slot, flags the slot [1] and returns the slot's index; [None] when
    no slot is free (the producer has to wait for the consumer). *)
Definition multiprocessing_func (result : Data) (b : Buffer)
  : option (nat * Buffer) :=
  pos ← first_free (flag b);
  Some (pos, mkBuffer (<[pos:=1%Z]> (flag b)) (<[pos:=result]> (slots b))).

(** Modelled from the spec: [multiprocessing_store_results] reads the slot
    and flags it [0] again; an Application in slave mode does nothing
    ([test_multiprocessing_store_results__slave]). *)
Definition multiprocessing_store_results (slave_mode : bool) (pos : nat)
    (b : Buffer) : option Data * Buffer :=
  if slave_mode then (None, b)
  else (slots b !! pos, mkBuffer (<[pos:=0%Z]> (flag b)) (slots b)).

(** The operations of a run on the buffer, and the slots whose result has
    been written and not consumed since. *)
Inductive Op :=
| Produce (result : Data)
| Consume (slave_mode : bool) (pos : nat).

Definition run_op (st : Buffer * list nat) (op : Op) : Buffer * list nat :=
  match op with
  | Produce d =>
      match multiprocessing_func d st.1 with
      | Some (pos, b') => (b', pos :: st.2)
      | None => st
      end
  | Consume slave pos =>
      ((multiprocessing_store_results slave pos st.1).2,
       if slave then st.2 else filter (λ i, i ≠ pos) st.2)
  end.

Definition run_ops (ops : list Op) (st : Buffer * list nat)
  : Buffer * list nat :=
  foldl run_op st ops.

(** The written-and-not-consumed bookkeeping agrees with the flags, and
    every flag is [0] or [1]. *)
Definition flags_track (st : Buffer * list nat) : Prop :=
  ∀ i, (flag st.1 !! i = Some 1%Z ↔ i ∈ st.2) ∧
       (∀ f, flag st.1 !! i = Some f → f = 0%Z ∨ f = 1%Z).

End WithData.

Arguments Buffer : clear implicits.
Arguments Op : clear implicits.

End SharedBuffer.

(** ** Checking an imported scan ([SetupScanIoBase]) *)

Module ScanIo.

(** The values a settings file can hold under a key. *)
Inductive Value :=
| VInt (z : Z)
| VBool (b : bool)
| VFloat (f : float)
| VStr (s : string)
| VNone.

(** The value as the integer [range] takes it: an [int], or a [bool]
    counted as [0] or [1].  On anything else [range(1, n_dim + 1)] raises a
    [TypeError]. *)
Definition as_int (v : Value) : option Z :=
  match v with
  | VInt z => Some z
  | VBool b => Some (if b then 1 else 0)%Z
  | _ => None
  end.

Definition quoted (s : string) : string :=
  String (Ascii.ascii_of_nat 34) EmptyString +:+ s
    +:+ String (Ascii.ascii_of_nat 34) EmptyString.

Definition scan_dim_missing : string :=
  "The scan dimension key " +:+ quoted "scan_dim" +:+ " is missing.".

Definition scan_title_missing : string :=
  "The scan name key " +:+ quoted "scan_title" +:+ " is missing.".

Definition setting_missing (_item : string) : string :=
  "The setting for " +:+ quoted _item +:+ " is missing.".

Definition not_an_integer : string :=
  "object cannot be interpreted as an integer".

(** The keys every scan dimension needs, in the order of the inner loop. *)
Definition DIM_KEYS : list string :=
  ["scan_label"; "n_points"; "delta"; "unit"; "offset"].

(** [f"{_key}_{_dim}"] *)
Definition item_name (_key : string) (_dim : Z) : string :=
  _key +:+ "_" +:+ pretty _dim.

(** [range(a, b)] *)
Definition range (a b : Z) : list Z := seqZ a (b - a).

(** Lines 57-60: the inner loop over the keys of one dimension, up to the
    first missing item. *)
Fixpoint check_keys (imported_params : gmap string Value) (_dim : Z)
    (keys : list string) : option AppRunner.Exception :=
  match keys with
  | [] => None
  | _key :: keys' =>
      match imported_params !! item_name _key _dim with
      | None =>
          Some (AppRunner.KeyError (setting_missing (item_name _key _dim)))
      | Some _ => check_keys imported_params _dim keys'
      end
  end.

(** Lines 56-60: the outer loop over the dimensions. *)
Fixpoint check_dims (imported_params : gmap string Value) (dims : list Z)
  : option AppRunner.Exception :=
  match dims with
  | [] => None
  | _dim :: dims' =>
      match check_keys imported_params _dim DIM_KEYS with
      | Some e => Some e
      | None => check_dims imported_params dims'
      end
  end.

(** [SetupScanIoBase._verify_all_entries_present], lines 46-60; [None] when
    the check passes, otherwise the exception raised. *)
Definition _verify_all_entries_present (imported_params : gmap string Value)
  : option AppRunner.Exception :=
  match imported_params !! "scan_dim" with
  | None => Some (AppRunner.KeyError scan_dim_missing)
  | Some n_dim =>
      match imported_params !! "scan_title" with
      | None => Some (AppRunner.KeyError scan_title_missing)
      | Some _ =>
          match as_int n_dim with
          | None => Some (AppRunner.TypeError not_an_integer)
          | Some n => check_dims imported_params (range 1 (n + 1))
          end
      end
  end.

(** The settings of a one-dimensional scan, complete, and the same without
    the unit of the dimension. *)
Definition line_scan : gmap string Value :=
  <["scan_dim" := VInt 1]> (<["scan_title" := VStr "line"]>
  (<["scan_label_1" := VStr "x"]> (<["n_points_1" := VInt 10]>
  (<["delta_1" := VFloat 0.5]> (<["unit_1" := VStr "mm"]>
  (<["offset_1" := VFloat 0]> ∅)))))).

Definition line_scan_without_unit : gmap string Value :=
  delete "unit_1" line_scan.

End ScanIo.

(** * Properties of the worker loop *)

Section ProcessorTheory.
Import Processor.
Context {App Params Config Task Payload : Type}.
Context {app : Application App Params Config Task Payload}.

#[local] Abbreviation WorkerT := (Worker App Task Payload).
#[local] Abbreviation EventT := (Event Task Payload).
#[local] Abbreviation ScheduleT := (Schedule Task Payload).

(** ** Traces grow by appending *)

Lemma inputs_taken_app (tr1 tr2 : list EventT) :
  inputs_taken (tr1 ++ tr2) = inputs_taken tr1 ++ inputs_taken tr2.
Proof.
  induction tr1 as [|e tr1 IH]; [done|].
  destruct e as [| |[x|]| | | | |]; simpl; by rewrite ?IH.
Qed.

Lemma outputs_put_app (tr1 tr2 : list EventT) :
  outputs_put (tr1 ++ tr2) = outputs_put tr1 ++ outputs_put tr2.
Proof.
  induction tr1 as [|e tr1 IH]; [done|].
  destruct e; simpl; by rewrite ?IH.
Qed.

Lemma after_stop_app (tr1 tr2 : list EventT) :
  after_stop (tr1 ++ tr2) =
    match after_stop tr1 with
    | Some post => Some (post ++ tr2)
    | None => after_stop tr2
    end.
Proof.
  induction tr1 as [|e tr1 IH]; [done|].
  destruct e as [[tok|]| | | | | | |]; simpl; by rewrite ?IH.
Qed.

(** ** The other processes touch the queues only *)

Lemma env_steps_locals (acts : list (EnvAction Task Payload)) (w : WorkerT) :
  _app (env_steps acts w) = _app w ∧
  _app_carryon (env_steps acts w) = _app_carryon w ∧
  _arg (env_steps acts w) = _arg w ∧
  trace (env_steps acts w) = trace w.
Proof.
  revert w. induction acts as [|a acts IH]; intros w; [done|].
  simpl. destruct (IH (env_step w a)) as (-> & -> & -> & ->). done.
Qed.

Lemma env_steps_queues (acts : list (EnvAction Task Payload)) (w : WorkerT) :
  queues (env_steps acts w) = foldl (λ q a, env_queues a q) (queues w) acts.
Proof.
  revert w. induction acts as [|a acts IH]; intros w; [done|].
  simpl. by rewrite IH.
Qed.

Lemma env_steps_no_stop (acts : list (EnvAction Task Payload)) (w : WorkerT) :
  Forall (λ a, puts_stop a = false) acts →
  stop_queue (queues w) = [] →
  stop_queue (queues (env_steps acts w)) = [].
Proof.
  intros Hacts. revert w.
  induction Hacts as [|a acts Ha _ IH]; intros w Hw; [done|].
  simpl. apply IH. destruct a; simpl in *; try done; by rewrite Hw.
Qed.

(** ** Workers are equal when their fields are *)

Lemma worker_ext (w1 w2 : WorkerT) :
  queues w1 = queues w2 →
  _app w1 = _app w2 →
  _app_carryon w1 = _app_carryon w2 →
  _arg w1 = _arg w2 →
  trace w1 = trace w2 →
  w1 = w2.
Proof. destruct w1, w2; simpl; intros; by subst. Qed.

Ltac worker_simpl :=
  cbn [queues _app _app_carryon _arg trace log with_queues with_app
       with_carryon with_arg].

(** ** One pass through the loop body *)

Lemma iteration_stop (w : WorkerT) tok rest :
  stop_queue (queues w) = tok :: rest →
  iteration w =
    (Break, log [StopGetNowait (Some tok); AbortedPut 1]
              (with_queues (put_aborted 1 (pop_stop (queues w))) w)).
Proof. intros Hs. unfold iteration. by rewrite Hs. Qed.

Lemma iteration_deferred (w : WorkerT) a' :
  stop_queue (queues w) = [] →
  _app_carryon w = false →
  multiprocessing_carryon (_app w) = Some (false, a') →
  iteration w =
    (Continue,
     log [StopGetNowait None; Carryon false]
       (with_carryon false (with_app a' w))).
Proof.
  intros Hs Hc Hgo. unfold iteration, run_cycle. rewrite Hs. simpl.
  rewrite Hc, Hgo. simpl. unfold log. simpl. by rewrite <- app_assoc.
Qed.

Lemma iteration_go (w : WorkerT) t a1 r a2 :
  stop_queue (queues w) = [] →
  _app_carryon w = false →
  _arg w = Some t →
  multiprocessing_carryon (_app w) = Some (true, a1) →
  multiprocessing_func t a1 = Some (r, a2) →
  iteration w =
    (Continue,
     log [StopGetNowait None; Carryon true; Func t;
          OutputPut (result_envelope t r)]
       (with_queues (put_output (result_envelope t r) (queues w))
          (with_carryon true (with_app a2 w)))).
Proof.
  intros Hs Hc Harg Hgo Hf. unfold iteration, run_cycle. rewrite Hs. simpl.
  rewrite Hc, Hgo. simpl. rewrite Harg. simpl. rewrite Hf.
  unfold log. simpl. by rewrite <- !app_assoc.
Qed.

Lemma iteration_fetch (w : WorkerT) t rest a0 r a1 a2 :
  stop_queue (queues w) = [] →
  _app_carryon w = true →
  input_queue (queues w) = Some t :: rest →
  multiprocessing_pre_cycle t (_app w) = Some a0 →
  multiprocessing_carryon a0 = Some (true, a1) →
  multiprocessing_func t a1 = Some (r, a2) →
  iteration w =
    (Continue,
     log [StopGetNowait None; InputGetNowait (Some (Some t)); PreCycle t;
          Carryon true; Func t; OutputPut (result_envelope t r)]
       (with_queues
          (put_output (result_envelope t r) (pop_input (queues w)))
          (with_arg t (with_app a2 w)))).
Proof.
  intros Hs Hc Hin Hpre Hgo Hf. unfold iteration, run_cycle. rewrite Hs.
  simpl. rewrite Hc, Hin. simpl. rewrite Hpre. simpl. rewrite Hgo. simpl.
  rewrite Hf. f_equal. apply worker_ext; worker_simpl; try done.
  by rewrite <- !app_assoc.
Qed.

Lemma iteration_sentinel (w : WorkerT) rest :
  stop_queue (queues w) = [] →
  _app_carryon w = true →
  input_queue (queues w) = None :: rest →
  iteration w =
    (Break,
     log [StopGetNowait None; InputGetNowait (Some None); OutputPut end_marker]
       (with_queues (put_output end_marker (pop_input (queues w))) w)).
Proof.
  intros Hs Hc Hin. unfold iteration. rewrite Hs. simpl. rewrite Hc, Hin.
  unfold log. simpl. by rewrite <- app_assoc.
Qed.

(** ** Runs of the main loop *)

Lemma main_loop_app (s1 s2 : ScheduleT) (w w' : WorkerT) :
  main_loop s1 w = LoopRunning w' →
  main_loop (s1 ++ s2) w = main_loop s2 w'.
Proof.
  revert w. induction s1 as [|acts s1 IH]; intros w Hrun; simpl in *.
  - by simplify_eq.
  - destruct (iteration (env_steps acts w)) as [[] w1]; [by apply IH|done..].
Qed.

(** While the carry-on check keeps saying no and no stop token arrives, a
    pass of the loop is a stop poll and a carry-on check and nothing else:
    the worker touches no queue and keeps the task it holds. *)
Lemma deferral_loop (n : nat) (sched : ScheduleT) (w : WorkerT) (a_n : App) :
  length sched = n →
  no_stop_sent sched →
  stop_queue (queues w) = [] →
  _app_carryon w = false →
  deferred n (_app w) a_n →
  ∃ w', main_loop sched w = LoopRunning w' ∧
    trace w' =
      trace w ++ concat (replicate n [StopGetNowait None; Carryon false]) ∧
    queues w' = env_only sched (queues w) ∧
    _app w' = a_n ∧ _app_carryon w' = false ∧ _arg w' = _arg w.
Proof.
  revert sched w. induction n as [|n IH]; intros sched w Hlen Hquiet Hs Hc Hd.
  - destruct sched; [|done]. inversion Hd; subst. exists w. simpl.
    by rewrite app_nil_r.
  - destruct sched as [|acts sched]; [done|].
    inversion Hd as [|? ? a' ? Hno Hd']; subst.
    apply Forall_cons in Hquiet as [Hacts Hquiet].
    destruct (env_steps_locals acts w) as (Ha & Hc' & Harg & Htr).
    pose proof (env_steps_no_stop acts w Hacts Hs) as Hs'.
    set (w1 := env_steps acts w) in *.
    assert (Hit : iteration w1 =
      (Continue, log [StopGetNowait None; Carryon false]
                   (with_carryon false (with_app a' w1)))).
    { apply iteration_deferred; [done|congruence|by rewrite Ha]. }
    cbn [main_loop]. fold w1. rewrite Hit.
    destruct (IH sched (log [StopGetNowait None; Carryon false]
                          (with_carryon false (with_app a' w1))))
      as (w' & Hrun & Htr' & Hq & Ha' & Hc'' & Harg');
      [by simplify_eq/=|done|exact Hs'|reflexivity|exact Hd'|].
    exists w'. split; [done|]. rewrite Htr', Hq, Harg'. worker_simpl.
    rewrite Htr, Harg, <- !app_assoc. unfold env_only.
    cbn [concat replicate]. rewrite foldl_app. unfold w1.
    by rewrite env_steps_queues.
Qed.

(** C2: a task taken from the input queue and deferred by a carry-on check
    that says no is kept: during the following passes the worker takes
    nothing from the input queue, and on the first pass whose carry-on check
    says yes (no stop token having arrived) it computes
    [multiprocessing_func] on that same task and puts the pair of the task
    and its result on the output queue. *)
Theorem held_task_is_kept_and_processed
    (w0 : WorkerT) (t : Task) (rest_in : list (option Task))
    (a0 a0' a_n a1 a2 : App) (n : nat) (r : Payload) (sched : ScheduleT) :
  stop_queue (queues w0) = [] →
  _app_carryon w0 = true →
  input_queue (queues w0) = Some t :: rest_in →
  multiprocessing_pre_cycle t (_app w0) = Some a0 →
  multiprocessing_carryon a0 = Some (false, a0') →
  deferred n a0' a_n →
  multiprocessing_carryon a_n = Some (true, a1) →
  multiprocessing_func t a1 = Some (r, a2) →
  length sched = S n →
  no_stop_sent sched →
  ∃ w1 w2,
    iteration w0 = (Continue, w1) ∧
    input_queue (queues w1) = rest_in ∧
    _arg w1 = Some t ∧ _app_carryon w1 = false ∧
    main_loop sched w1 = LoopRunning w2 ∧
    trace w2 =
      trace w1 ++ concat (replicate n [StopGetNowait None; Carryon false])
        ++ [StopGetNowait None; Carryon true; Func t;
            OutputPut (result_envelope t r)] ∧
    queues w2 = put_output (result_envelope t r) (env_only sched (queues w1)) ∧
    _app w2 = a2 ∧ _app_carryon w2 = true.
Proof.
  intros Hs Hc Hin Hpre Hno Hd Hgo Hf Hlen Hquiet.
  induction sched as [|acts s1 _] using rev_ind; [done|].
  assert (length s1 = n) as Hlen1
    by (rewrite length_app in Hlen; simpl in Hlen; lia).
  unfold no_stop_sent in Hquiet. rewrite Forall_app, Forall_singleton in Hquiet.
  destruct Hquiet as [Hq1 Hq2].
  set (w1 := log [StopGetNowait None; InputGetNowait (Some (Some t));
                  PreCycle t; Carryon false]
               (with_carryon false (with_app a0'
                  (with_arg t (with_queues (pop_input (queues w0)) w0))))).
  assert (Hit : iteration w0 = (Continue, w1)).
  { unfold iteration, run_cycle. rewrite Hs. simpl. rewrite Hc, Hin. simpl.
    rewrite Hpre. simpl. rewrite Hno. simpl. f_equal.
    apply worker_ext; worker_simpl; try done. by rewrite <- !app_assoc. }
  destruct (deferral_loop n s1 w1 a_n)
    as (w' & Hrun & Htr & Hq & Ha & Hc' & Harg); [done..|].
  destruct (env_steps_locals acts w') as (Ha' & Hc'' & Harg' & Htr').
  assert (stop_queue (queues w') = []) as Hs'.
  { rewrite Hq. unfold env_only.
    rewrite <- (env_steps_queues (concat s1) w1).
    apply env_steps_no_stop; [|done]. by apply Forall_concat. }
  eexists w1, _. split; [done|]. split; [by simpl; rewrite Hin|].
  do 2 (split; [done|]).
  rewrite (main_loop_app _ _ _ _ Hrun). cbn [main_loop].
  rewrite (iteration_go (env_steps acts w') t a1 r a2); cycle 1.
  { by apply env_steps_no_stop. }
  { congruence. }
  { rewrite Harg', Harg. reflexivity. }
  { congruence. }
  { done. }
  split; [reflexivity|]. worker_simpl.
  rewrite Htr', Htr, <- !app_assoc. split; [done|].
  rewrite env_steps_queues, Hq. unfold env_only.
  rewrite concat_app, foldl_app. cbn [concat]. by rewrite app_nil_r.
Qed.

(** The events of one pass: where a sleep can come from. *)
Lemma iteration_events (w w' : WorkerT) (c : Ctl) :
  iteration w = (c, w') →
  ∃ evs, trace w' = trace w ++ StopGetNowait (head (stop_queue (queues w))) :: evs ∧
    (∀ ms, Sleep ms ∈ evs →
       ms = 5%Z ∧ stop_queue (queues w) = [] ∧ _app_carryon w = true ∧
       input_queue (queues w) = [] ∧ c = Continue).
Proof.
  unfold iteration, run_cycle. intros Hit.
  repeat (case_match; simplify_eq/=); rewrite <- ?app_assoc; simpl;
    eexists; (split; [reflexivity|]); intros ms Hin;
    repeat (apply elem_of_cons in Hin as [Hin|Hin]; simplify_eq);
    try (by apply elem_of_nil in Hin); done.
Qed.

(** C10: a pass of the main loop made while a task is deferred (the last
    carry-on check said no) and the stop queue is empty does not sleep; the
    5 ms sleep belongs to the passes that find the input queue empty with
    the carry-on flag set.  So as long as the carry-on check keeps saying
    no, the worker alternates stop polls and carry-on checks with nothing
    in between. *)
Theorem deferred_passes_do_not_sleep :
  (∀ (w w' : WorkerT) (c : Ctl) (evs : list EventT),
     _app_carryon w = false →
     iteration w = (c, w') →
     trace w' = trace w ++ evs →
     Forall (λ e, is_sleep e = false) evs) ∧
  (∀ (w w' : WorkerT) (c : Ctl) (evs : list EventT) (ms : Z),
     iteration w = (c, w') →
     trace w' = trace w ++ evs →
     Sleep ms ∈ evs →
     ms = 5%Z ∧ _app_carryon w = true ∧ input_queue (queues w) = [] ∧
     stop_queue (queues w) = []) ∧
  (∀ (n : nat) (sched : ScheduleT) (w : WorkerT) (a_n : App),
     length sched = n →
     no_stop_sent sched →
     stop_queue (queues w) = [] →
     _app_carryon w = false →
     deferred n (_app w) a_n →
     ∃ w', main_loop sched w = LoopRunning w' ∧
       trace w' =
         trace w ++ concat (replicate n [StopGetNowait None; Carryon false])).
Proof.
  assert (Hsleep : ∀ (w w' : WorkerT) c evs ms,
    iteration w = (c, w') → trace w' = trace w ++ evs → Sleep ms ∈ evs →
    ms = 5%Z ∧ _app_carryon w = true ∧ input_queue (queues w) = [] ∧
    stop_queue (queues w) = []).
  { intros w w' c evs ms Hit Htr Hin.
    destruct (iteration_events _ _ _ Hit) as (evs' & Htr' & Hs).
    rewrite Htr' in Htr. apply app_inv_head in Htr. subst evs.
    apply elem_of_cons in Hin as [?|Hin]; [done|].
    destruct (Hs ms Hin) as (? & ? & ? & ? & ?). done. }
  split; [|split; [exact Hsleep|]].
  - intros w w' c evs Hc Hit Htr. apply Forall_forall. intros e He.
    destruct e; try done.
    destruct (Hsleep _ _ _ _ _ Hit Htr He) as (_ & Hc' & _). congruence.
  - intros n sched w a_n Hlen Hquiet Hs Hc Hd.
    destruct (deferral_loop n sched w a_n) as (w' & ? & ? & _); eauto.
Qed.

(** ** A whole batch on a worker that is never told to stop *)

Lemma results_of_ids (ts : list Task) (a : App) :
  (∀ a, ∃ a', multiprocessing_carryon a = Some (true, a')) →
  (∀ t a, is_Some (multiprocessing_pre_cycle t a)) →
  (∀ t a, is_Some (multiprocessing_func t a)) →
  (results_of ts a).*1 = Some <$> ts ∧
  Forall2 (λ t e, ∃ a r a',
             multiprocessing_func t a = Some (r, a') ∧ e = result_envelope t r)
          ts (results_of ts a).
Proof.
  intros Hgo Hpre Hf. revert a. induction ts as [|t ts IH]; intros a.
  - split; [done|constructor].
  - simpl. unfold process_task.
    destruct (Hpre t a) as [a0 ->]. simpl.
    destruct (Hgo a0) as [a1 ->]. simpl.
    destruct (Hf t a1) as [[r a2] Hr]. rewrite Hr.
    destruct (IH a2) as [IH1 IH2]. split.
    + rewrite !fmap_cons. by rewrite IH1.
    + constructor; [|done]. by exists a1, r, a2.
Qed.

Lemma batch_run (ts : list Task) (w : WorkerT) (n : nat) :
  (∀ a, ∃ a', multiprocessing_carryon a = Some (true, a')) →
  (∀ t a, is_Some (multiprocessing_pre_cycle t a)) →
  (∀ t a, is_Some (multiprocessing_func t a)) →
  stop_queue (queues w) = [] →
  _app_carryon w = true →
  input_queue (queues w) = (Some <$> ts) ++ [None] →
  length ts < n →
  ∃ w', main_loop (replicate n []) w
        = LoopLeft w' (replicate (n - S (length ts)) []) ∧
    input_queue (queues w') = [] ∧
    output_queue (queues w')
      = output_queue (queues w) ++ results_of ts (_app w) ++ [end_marker] ∧
    outputs_put (trace w')
      = outputs_put (trace w) ++ results_of ts (_app w) ++ [end_marker] ∧
    inputs_taken (trace w')
      = inputs_taken (trace w) ++ (Some <$> ts) ++ [None].
Proof.
  intros Hgo Hpre Hf. revert w n.
  induction ts as [|t ts IH]; intros w n Hs Hc Hin Hlen.
  - destruct n as [|n]; [simpl in Hlen; lia|]. simpl.
    rewrite (iteration_sentinel w []); [|done..].
    eexists. split; [by rewrite Nat.sub_0_r|]. simpl.
    rewrite Hin, outputs_put_app, inputs_taken_app. done.
  - destruct n as [|n]; [simpl in Hlen; lia|].
    rewrite fmap_cons in Hin. simpl in Hin, Hlen.
    destruct (Hpre t (_app w)) as [a0 Ha0].
    destruct (Hgo a0) as [a1 Ha1].
    destruct (Hf t a1) as [[r a2] Hr].
    cbn [replicate main_loop env_steps foldl results_of].
    rewrite (iteration_fetch w t ((Some <$> ts) ++ [None]) a0 r a1 a2);
      [|done..].
    unfold process_task. rewrite Ha0. simpl. rewrite Ha1. simpl. rewrite Hr.
    match goal with |- ∃ _, main_loop _ ?w = _ ∧ _ => set (w1 := w) end.
    destruct (IH w1 n) as (w' & Hrun & Hi & Ho & Hop & Hit).
    { exact Hs. }
    { exact Hc. }
    { unfold w1. worker_simpl. simpl. by rewrite Hin. }
    { lia. }
    exists w'. split; [done|]. split; [done|].
    rewrite Ho, Hop, Hit. unfold w1. worker_simpl. simpl.
    rewrite outputs_put_app, inputs_taken_app, <- !app_assoc. done.
Qed.

(** C1: with the tasks [t0 .. tK-1] and then the sentinel on the input
    queue, no stop token, and a carry-on check that always says yes, one
    worker puts on the output queue exactly [K] result envelopes, one pair
    of a task and the result of [multiprocessing_func] on it for each
    submitted task, each once, then one [(None, None)] end marker, and
    leaves the main loop. *)
Theorem batch_gives_one_envelope_per_task
    (qs : Queues Task Payload) (app_params : Params) (app_config : Config)
    (w0 : WorkerT) (ts : list Task) (n : nat) :
  start_worker qs app_params app_config = Some w0 →
  input_queue qs = (Some <$> ts) ++ [None] →
  stop_queue qs = [] →
  (∀ a, ∃ a', multiprocessing_carryon a = Some (true, a')) →
  (∀ t a, is_Some (multiprocessing_pre_cycle t a)) →
  (∀ t a, is_Some (multiprocessing_func t a)) →
  length ts < n →
  ∃ w', main_loop (replicate n []) w0
        = LoopLeft w' (replicate (n - S (length ts)) []) ∧
    output_queue (queues w')
      = output_queue qs ++ results_of ts (_app w0) ++ [end_marker] ∧
    outputs_put (trace w') = results_of ts (_app w0) ++ [end_marker] ∧
    inputs_taken (trace w') = (Some <$> ts) ++ [None] ∧
    length (results_of ts (_app w0)) = length ts ∧
    (results_of ts (_app w0)).*1 = Some <$> ts ∧
    Forall2 (λ t e, ∃ a r a',
               multiprocessing_func t a = Some (r, a') ∧
               e = result_envelope t r)
            ts (results_of ts (_app w0)).
Proof.
  intros Hstart Hin Hs Hgo Hpre Hf Hlen.
  unfold start_worker in Hstart.
  destruct (new_app app_params true) as [a|]; [|done]. simpl in Hstart.
  destruct (multiprocessing_pre_run (set_config app_config a)) as [a'|];
    [|done].
  simpl in Hstart. simplify_eq.
  destruct (batch_run ts (mkWorker qs a' true None []) n)
    as (w' & Hrun & _ & Ho & Hop & Hit); [done..|].
  simpl in *. destruct (results_of_ids ts a' Hgo Hpre Hf) as [Hids Hres].
  exists w'. do 4 (split; [done|]). split; [|done].
  transitivity (length ((results_of ts a').*1)).
  - symmetry. apply length_fmap.
  - rewrite Hids. apply length_fmap.
Qed.

(** ** Taken and answered: the invariant of the main loop *)

Lemma env_steps_accounted (acts : list (EnvAction Task Payload)) (w : WorkerT) :
  accounted w → accounted (env_steps acts w).
Proof.
  destruct (env_steps_locals acts w) as (_ & Hc & Harg & Htr).
  unfold accounted. by rewrite Hc, Harg, Htr.
Qed.

Lemma iteration_accounted (w w' : WorkerT) (c : Ctl) :
  iteration w = (c, w') →
  accounted w →
  after_stop (trace w) = None →
  match c with
  | Continue => accounted w' ∧ after_stop (trace w') = None
  | Raised => after_stop (trace w') = None
  | Break =>
      (after_stop (trace w') = None ∧
       inputs_taken (trace w') = (outputs_put (trace w')).*1) ∨
      (after_stop (trace w') = Some [AbortedPut 1] ∧ accounted w')
  end.
Proof.
  unfold iteration, run_cycle, accounted. intros Hit Hacc Hns.
  destruct (stop_queue (queues w)) as [|tok rest] eqn:Hs.
  - simpl in Hit. destruct (_app_carryon w) eqn:Hc.
    + destruct (input_queue (queues w)) as [|[t|] rest] eqn:Hin;
        simpl in Hit.
      * simplify_eq. simpl. rewrite Hc.
        rewrite !after_stop_app, Hns, !inputs_taken_app, !outputs_put_app.
        simpl. by rewrite !app_nil_r.
      * destruct (multiprocessing_pre_cycle t (_app w)) as [a0|];
          simpl in Hit; [|simplify_eq; simpl;
            by rewrite !after_stop_app, Hns].
        destruct (multiprocessing_carryon a0) as [[[] a1]|];
          simpl in Hit; [| |simplify_eq; simpl;
            by rewrite !after_stop_app, Hns].
        -- destruct (multiprocessing_func t a1) as [[r a2]|];
             simplify_eq; simpl; [|by rewrite !after_stop_app, Hns].
           rewrite !after_stop_app, Hns, !inputs_taken_app,
             !outputs_put_app, !fmap_app, Hacc. simpl.
           by rewrite !app_nil_r.
        -- simplify_eq. simpl.
           rewrite !after_stop_app, Hns, !inputs_taken_app,
             !outputs_put_app, !fmap_app, Hacc. simpl.
           split; [|done]. exists t. by rewrite !app_nil_r.
      * simplify_eq. left. simpl.
        rewrite !after_stop_app, Hns, !inputs_taken_app,
          !outputs_put_app, !fmap_app, Hacc. simpl. by rewrite !app_nil_r.
    + destruct Hacc as (t & Harg & Hacc).
      destruct (multiprocessing_carryon (_app w)) as [[[] a1]|];
        simpl in Hit; [| |simplify_eq; simpl;
          by rewrite !after_stop_app, Hns].
      * rewrite Harg in Hit. simpl in Hit.
        destruct (multiprocessing_func t a1) as [[r a2]|];
          simplify_eq; simpl; [|by rewrite !after_stop_app, Hns].
        rewrite !after_stop_app, Hns, !inputs_taken_app,
          !outputs_put_app, !fmap_app, Hacc. simpl.
        by rewrite !app_nil_r.
      * simplify_eq. simpl.
        rewrite !after_stop_app, Hns, !inputs_taken_app, !outputs_put_app.
        simpl. split; [|done]. exists t. by rewrite !app_nil_r.
  - simplify_eq. right. simpl.
    rewrite after_stop_app, Hns, inputs_taken_app, outputs_put_app. simpl.
    by rewrite !app_nil_r.
Qed.

Lemma main_loop_accounted (sched : ScheduleT) (w : WorkerT) :
  accounted w →
  after_stop (trace w) = None →
  match main_loop sched w with
  | LoopRunning w' => accounted w' ∧ after_stop (trace w') = None
  | LoopRaised w' => after_stop (trace w') = None
  | LoopLeft w' _ =>
      (after_stop (trace w') = None ∧
       inputs_taken (trace w') = (outputs_put (trace w')).*1) ∨
      (after_stop (trace w') = Some [AbortedPut 1] ∧ accounted w')
  end.
Proof.
  revert w. induction sched as [|acts sched IH]; intros w Hacc Hns; [done|].
  cbn [main_loop].
  destruct (iteration (env_steps acts w)) as [c w1] eqn:Hit.
  apply iteration_accounted in Hit; [|by apply env_steps_accounted|].
  - destruct c; [|done..]. destruct Hit. by apply IH.
  - destruct (env_steps_locals acts w) as (_ & _ & _ & ->). done.
Qed.

(** ** The wait for the output queue *)

Lemma wait_loop_spec (b : bool) (sched : ScheduleT) (w : WorkerT) :
  ∃ k, trace (final_worker (wait_loop b sched w))
       = trace w ++ replicate k (Sleep 50) ∧
    _app_carryon (final_worker (wait_loop b sched w)) = _app_carryon w ∧
    _arg (final_worker (wait_loop b sched w)) = _arg w ∧
    match wait_loop b sched w with
    | LoopLeft w' rest =>
        (b = true → output_queue_empty rest w' = true) ∧
        (b = false → w' = w ∧ rest = sched)
    | LoopRaised _ => False
    | LoopRunning w' => b = true ∧ output_queue (queues w') ≠ []
    end.
Proof.
  destruct b.
  - revert w. induction sched as [|acts sched IH]; intros w.
    + exists 0. cbn [wait_loop andb].
      destruct (output_queue_empty [] w) eqn:Hq; simpl.
      * rewrite app_nil_r. by repeat split.
      * rewrite app_nil_r. repeat split; try done.
        unfold output_queue_empty in Hq. rewrite orb_false_r in Hq.
        by apply bool_decide_eq_false in Hq.
    + cbn [wait_loop andb].
      destruct (output_queue_empty (acts :: sched) w) eqn:Hq; simpl.
      * exists 0. rewrite app_nil_r. by repeat split.
      * destruct (IH (env_steps acts (log [Sleep 50] w)))
          as (k & Htr & Hc & Harg & Hx).
        destruct (env_steps_locals acts (log [Sleep 50] w))
          as (_ & Hc' & Harg' & Htr').
        exists (S k). rewrite Htr, Hc, Harg, Htr', Hc', Harg'. simpl.
        rewrite <- app_assoc. do 3 (split; [done|]).
        destruct (wait_loop true sched _); [|done..].
        split; [apply Hx|done].
  - exists 0. destruct sched; simpl; rewrite app_nil_r; by repeat split.
Qed.

Lemma inputs_taken_sleeps (k : nat) (ms : Z) :
  inputs_taken (Task:=Task) (Payload:=Payload) (replicate k (Sleep ms)) = [].
Proof. induction k; [done|]. by simpl. Qed.

Lemma outputs_put_sleeps (k : nat) (ms : Z) :
  outputs_put (Task:=Task) (Payload:=Payload) (replicate k (Sleep ms)) = [].
Proof. induction k; [done|]. by simpl. Qed.

Lemma after_stop_sleeps (k : nat) (ms : Z) :
  after_stop (Task:=Task) (Payload:=Payload) (replicate k (Sleep ms)) = None.
Proof. induction k; [done|]. by simpl. Qed.

(** ** The whole function *)

Lemma start_worker_state (qs : Queues Task Payload) (p : Params) (c : Config)
    (w : WorkerT) :
  start_worker qs p c = Some w →
  queues w = qs ∧ _app_carryon w = true ∧ trace w = [] ∧
  accounted w ∧ after_stop (trace w) = None.
Proof.
  unfold start_worker. intros Hw.
  destruct (new_app p true) as [a|]; [|done]. simpl in Hw.
  destruct (multiprocessing_pre_run (set_config c a)) as [a'|]; [|done].
  simpl in Hw. by simplify_eq.
Qed.

(** C4: every pass of the main loop starts with a non-blocking poll of the
    stop queue, before any task handling; a token found there makes the
    worker put an acknowledgment on the aborted queue and leave the loop at
    once; and after the token has been seen the worker takes no task, calls
    no hook and puts no envelope: all it may still do is sleep while it
    waits for the output queue. *)
Theorem stop_token_ends_task_handling :
  (∀ w : WorkerT, ∃ evs,
     trace (iteration w).2
       = trace w ++ StopGetNowait (head (stop_queue (queues w))) :: evs) ∧
  (∀ (w : WorkerT) tok rest,
     stop_queue (queues w) = tok :: rest →
     ∃ w', iteration w = (Break, w') ∧
       trace w' = trace w ++ [StopGetNowait (Some tok); AbortedPut 1] ∧
       stop_queue (queues w') = rest ∧
       aborted_queue (queues w') = aborted_queue (queues w) ++ [1%Z] ∧
       input_queue (queues w') = input_queue (queues w) ∧
       output_queue (queues w') = output_queue (queues w) ∧
       _app w' = _app w) ∧
  (∀ (qs : Queues Task Payload) (p : Params) (c : Config) kwargs sched x post,
     app_processor qs p c kwargs sched = Some x →
     after_stop (trace (final_worker x)) = Some post →
     ∃ k, post = AbortedPut 1 :: replicate k (Sleep 50) ∧
       Forall (λ e, is_task_handling e = false) post).
Proof.
  split; [|split].
  - intros w. destruct (iteration w) as [c w'] eqn:Hit.
    destruct (iteration_events _ _ _ Hit) as (evs & Htr & _). by exists evs.
  - intros w tok rest Hs. rewrite (iteration_stop w tok rest Hs).
    eexists. split; [reflexivity|]. simpl. by rewrite Hs.
  - intros qs p c kwargs sched x post Hrun Hpost.
    unfold app_processor in Hrun.
    destruct (start_worker qs p c) as [w0|] eqn:Hstart; [|done].
    destruct (start_worker_state _ _ _ _ Hstart) as (_ & _ & _ & Hacc & Hns).
    pose proof (main_loop_accounted sched w0 Hacc Hns) as Hloop.
    simpl in Hrun. injection Hrun as <-.
    destruct (main_loop sched w0) as [w1 rest|w1|w1]; simpl in Hpost.
    + destruct (wait_loop_spec (wait_for_output_queue kwargs) rest w1)
        as (k & Htr & _).
      rewrite Htr, after_stop_app in Hpost.
      destruct Hloop as [[Hn _]|[Hsome _]].
      * rewrite Hn, after_stop_sleeps in Hpost. done.
      * rewrite Hsome in Hpost. injection Hpost as <-.
        exists k. split; [done|]. constructor; [done|].
        apply Forall_forall. intros e He.
        apply elem_of_replicate in He as [-> _]. done.
    + congruence.
    + destruct Hloop. congruence.
Qed.

(** C5, as the code has it: when the main loop is left, every item taken
    from the input queue has exactly one envelope on the output queue (a
    task its result envelope, the sentinel the end marker), in the order
    taken, with one exception: a task still deferred by a carry-on check
    that said no when the stop token is seen gets no envelope; the worker
    acknowledges the stop on the aborted queue and leaves. *)
Theorem taken_items_answered_unless_stopped_while_deferred
    (qs : Queues Task Payload) (p : Params) (c : Config) (sched : ScheduleT)
    (w0 w : WorkerT) (rest : ScheduleT) :
  start_worker qs p c = Some w0 →
  main_loop sched w0 = LoopLeft w rest →
  inputs_taken (trace w) = (outputs_put (trace w)).*1 ∨
  ∃ t, after_stop (trace w) = Some [AbortedPut 1] ∧
    _app_carryon w = false ∧ _arg w = Some t ∧
    inputs_taken (trace w) = (outputs_put (trace w)).*1 ++ [Some t].
Proof.
  intros Hstart Hrun.
  destruct (start_worker_state _ _ _ _ Hstart) as (_ & _ & _ & Hacc & Hns).
  pose proof (main_loop_accounted sched w0 Hacc Hns) as Hloop.
  rewrite Hrun in Hloop. destruct Hloop as [[_ Heq]|[Hstop Hacc']].
  - by left.
  - unfold accounted in Hacc'. destruct (_app_carryon w) eqn:Hc.
    + by left.
    + right. destruct Hacc' as (t & Harg & Heq). by exists t.
Qed.

(** What holds of the keyword argument and of the wait: the argument
    defaults to [True]; with it [False] the function returns straight after
    the main loop; with it set the function returns only after a poll of
    the output queue has answered empty. *)
Lemma wait_flag_and_poll :
  (∀ kwargs : gmap string bool,
     kwargs !! "wait_for_output_queue" = None →
     wait_for_output_queue kwargs = true) ∧
  (∀ (kwargs : gmap string bool) b,
     kwargs !! "wait_for_output_queue" = Some b →
     wait_for_output_queue kwargs = b) ∧
  (∀ (qs : Queues Task Payload) (p : Params) (c : Config) kwargs sched
     (w : WorkerT) rest,
     wait_for_output_queue kwargs = true →
     app_processor qs p c kwargs sched = Some (LoopLeft w rest) →
     output_queue_empty rest w = true) ∧
  (∀ (qs : Queues Task Payload) (p : Params) (c : Config) kwargs sched
     (w0 w : WorkerT) rest,
     wait_for_output_queue kwargs = false →
     start_worker qs p c = Some w0 →
     main_loop sched w0 = LoopLeft w rest →
     app_processor qs p c kwargs sched = Some (LoopLeft w rest)).
Proof.
  repeat split.
  - intros kwargs Hk. unfold wait_for_output_queue. by rewrite Hk.
  - intros kwargs b Hk. unfold wait_for_output_queue. by rewrite Hk.
  - intros qs p c kwargs sched w rest Hwait Hrun.
    unfold app_processor in Hrun. rewrite Hwait in Hrun.
    destruct (start_worker qs p c) as [w0|]; [|done].
    simpl in Hrun. injection Hrun as Hrun.
    destruct (main_loop sched w0) as [w1 rest1| |]; [|done..].
    pose proof (wait_loop_spec true rest1 w1) as (k & _ & _ & _ & Hx).
    rewrite Hrun in Hx. by apply Hx.
  - intros qs p c kwargs sched w0 w rest Hwait Hstart Hrun.
    unfold app_processor. rewrite Hwait, Hstart. simpl. rewrite Hrun.
    by destruct rest.
Qed.

(** C8, what the code does: the wait ends on the first poll of the output
    queue that answers empty, and [empty()] answers empty while the
    envelopes put are still with the feeder thread.  So with
    [wait_for_output_queue] set, a worker that leaves the main loop and
    polls before the pipe shows its envelopes returns at once, without a
    sleep, whatever is on the output queue. *)
Theorem worker_returns_while_output_buffered
    (qs : Queues Task Payload) (p : Params) (c : Config)
    (kwargs : gmap string bool) (sched : ScheduleT) (w0 w : WorkerT)
    (acts : list (EnvAction Task Payload)) (rest : ScheduleT) :
  wait_for_output_queue kwargs = true →
  start_worker qs p c = Some w0 →
  main_loop sched w0 = LoopLeft w (acts :: rest) →
  EnvOutputBuffered ∈ acts →
  app_processor qs p c kwargs sched = Some (LoopLeft w (acts :: rest)).
Proof.
  intros Hwait Hstart Hrun Hbuf.
  unfold app_processor. rewrite Hwait, Hstart. simpl. rewrite Hrun.
  cbn [wait_loop andb]. unfold output_queue_empty.
  assert (existsb is_buffered acts = true) as ->; [|by rewrite orb_true_r].
  apply existsb_exists. exists EnvOutputBuffered.
  split; [by apply list_elem_of_In|done].
Qed.

End ProcessorTheory.

(** ** Worked runs *)

Section ProcessorRuns.
Import Processor.

Lemma batch_gives_one_envelope_per_task_witness :
  ∃ w' : Worker unit Z Z,
    main_loop (replicate 4 []) (mkWorker batch_queues () true None [])
      = LoopLeft w' (replicate (4 - 4) []) ∧
    output_queue (queues w')
      = [] ++ results_of [0; 1; 2]%Z () ++ [end_marker] ∧
    outputs_put (trace w') = results_of [0; 1; 2]%Z () ++ [end_marker] ∧
    inputs_taken (trace w') = (Some <$> [0; 1; 2]%Z) ++ [None] ∧
    length (results_of [0; 1; 2]%Z ()) = 3 ∧
    (results_of [0; 1; 2]%Z ()).*1 = Some <$> [0; 1; 2]%Z ∧
    Forall2 (λ t e, ∃ (a : ()) r a',
               multiprocessing_func t a = Some (r, a') ∧
               e = result_envelope t r)
            [0; 1; 2]%Z (results_of [0; 1; 2]%Z ()).
Proof.
  apply (batch_gives_one_envelope_per_task batch_queues () ()
           (mkWorker batch_queues () true None []) [0; 1; 2]%Z 4).
  - reflexivity.
  - reflexivity.
  - reflexivity.
  - intros a. exists a. reflexivity.
  - intros t a. exists a. reflexivity.
  - intros t a. exists (t, a). reflexivity.
  - simpl. lia.
Defined.

Lemma held_task_is_kept_and_processed_witness :
  ∃ w1 w2 : Worker nat Z Z,
    iteration patient_worker = (Continue, w1) ∧
    input_queue (queues w1) = [] ∧
    _arg w1 = Some 5%Z ∧ _app_carryon w1 = false ∧
    main_loop [[]; []] w1 = LoopRunning w2 ∧
    trace w2 =
      trace w1 ++ concat (replicate 1 [StopGetNowait None; Carryon false])
        ++ [StopGetNowait None; Carryon true; Func 5%Z;
            OutputPut (result_envelope 5%Z 10%Z)] ∧
    queues w2 = put_output (result_envelope 5%Z 10%Z)
                  (env_only [[]; []] (queues w1)) ∧
    _app w2 = 0 ∧ _app_carryon w2 = true.
Proof.
  apply (held_task_is_kept_and_processed patient_worker 5%Z [] 2 1 0 0 0 1
           10%Z [[]; []]).
  - reflexivity.
  - reflexivity.
  - reflexivity.
  - reflexivity.
  - reflexivity.
  - apply (deferred_S 0 1 0 0); [reflexivity|apply deferred_O].
  - reflexivity.
  - reflexivity.
  - reflexivity.
  - repeat constructor.
Defined.

Lemma deferred_passes_do_not_sleep_witness :
  ∃ w' : Worker nat Z Z,
    main_loop [[]; [EnvPutInput (Some 7%Z)]] (mkWorker one_task_queues 2 false (Some 5%Z) [])
      = LoopRunning w' ∧
    trace w' = [] ++ concat (replicate 2 [StopGetNowait None; Carryon false]).
Proof.
  apply (proj2 (proj2 deferred_passes_do_not_sleep) 2
           [[]; [EnvPutInput (Some 7%Z)]]
           (mkWorker one_task_queues 2 false (Some 5%Z) []) 0).
  - reflexivity.
  - repeat constructor.
  - reflexivity.
  - reflexivity.
  - apply (deferred_S 1 2 1 0); [reflexivity|].
    apply (deferred_S 0 1 0 0); [reflexivity|apply deferred_O].
Defined.

(** C5, against the claim as stated: the worker takes task [5] from the
    input queue, the carry-on check says no, the stop token arrives, and the
    function returns normally with no envelope for task [5] on the output
    queue and no exception raised. *)
Lemma deferred_task_dropped_on_stop :
  ∃ w : Worker nat Z Z,
    app_processor one_task_queues 1 () ∅ stop_after_first_pass
      = Some (LoopLeft w []) ∧
    inputs_taken (trace w) = [Some 5%Z] ∧
    outputs_put (trace w) = [] ∧
    input_queue (queues w) = [] ∧
    output_queue (queues w) = [] ∧
    aborted_queue (queues w) = [1%Z] ∧
    _arg w = Some 5%Z.
Proof. eexists. split; [vm_compute; reflexivity|]. by repeat split. Qed.

Lemma taken_items_answered_unless_stopped_while_deferred_witness :
  ∃ w : Worker nat Z Z,
    main_loop stop_after_first_pass (mkWorker one_task_queues 1 true None [])
      = LoopLeft w [] ∧
    (inputs_taken (trace w) = (outputs_put (trace w)).*1 ∨
     ∃ t, after_stop (trace w) = Some [AbortedPut 1] ∧
       _app_carryon w = false ∧ _arg w = Some t ∧
       inputs_taken (trace w) = (outputs_put (trace w)).*1 ++ [Some t]).
Proof.
  eexists. split; [vm_compute; reflexivity|].
  apply (taken_items_answered_unless_stopped_while_deferred
           one_task_queues 1 () stop_after_first_pass
           (mkWorker one_task_queues 1 true None []) _ []).
  - reflexivity.
  - vm_compute. reflexivity.
Defined.

Lemma stop_token_ends_task_handling_witness :
  ∃ k, ([AbortedPut 1] : list (Event Z Z))
       = AbortedPut 1 :: replicate k (Sleep 50) ∧
    Forall (λ e : Event Z Z, is_task_handling e = false) [AbortedPut 1].
Proof.
  eapply (proj2 (proj2 stop_token_ends_task_handling)
            one_task_queues 1 () ∅ stop_after_first_pass).
  - vm_compute. reflexivity.
  - vm_compute. reflexivity.
Defined.

Lemma worker_returns_while_output_buffered_witness :
  ∃ w : Worker unit Z Z,
    app_processor (mkQueues [None] [] [] []) () () ∅ poll_before_flush
      = Some (LoopLeft w [[EnvOutputBuffered]]) ∧
    wait_for_output_queue ∅ = true ∧
    trace w = [StopGetNowait None; InputGetNowait (Some None);
               OutputPut end_marker] ∧
    output_queue (queues w) = [end_marker].
Proof.
  eexists. split.
  - eapply (worker_returns_while_output_buffered
              (mkQueues [None] [] [] []) () () ∅ poll_before_flush
              (mkWorker (mkQueues [None] [] [] []) () true None [])
              _ [EnvOutputBuffered] []).
    + vm_compute. reflexivity.
    + reflexivity.
    + vm_compute. reflexivity.
    + apply list_elem_of_here.
  - split; [vm_compute; reflexivity|]. split; reflexivity.
Defined.

End ProcessorRuns.

(** * Properties of the application runner *)

Section AppRunnerTheory.
Import AppRunner.
Context {WC AppT Value : Type}.
Context {wc : WorkerController WC} {base_app : BaseApp AppT Value}.

#[local] Abbreviation RunnerT := (AppRunner WC AppT).

(** [call_app_method] refuses to touch the Application of a running pool. *)
Lemma call_app_method_while_running (self : RunnerT) method_name args kwargs :
  _flag_running (controller self) = true →
  call_app_method method_name args kwargs self
    = (inl (RuntimeError running_message), self).
Proof.
  intros Hrun. unfold call_app_method, __check_is_running. by rewrite Hrun.
Qed.

(** Once the pool is stopped the same call goes through to the method. *)
Lemma call_app_method_when_stopped (self : RunnerT) method_name args kwargs :
  _flag_running (controller self) = false →
  hasattr (__app self) method_name = true →
  call_app_method method_name args kwargs self
    = ((call_method method_name args kwargs (__app self)).1,
       mkAppRunner (controller self)
         (call_method method_name args kwargs (__app self)).2).
Proof.
  intros Hrun Hattr.
  unfold call_app_method, __check_is_running, __check_app_method_name.
  rewrite Hrun, Hattr.
  by destruct (call_method method_name args kwargs (__app self)).
Qed.

(** A missing method is a [KeyError], and the Application is left alone. *)
Lemma call_app_method_no_such_method (self : RunnerT) method_name args kwargs :
  _flag_running (controller self) = false →
  hasattr (__app self) method_name = false →
  call_app_method method_name args kwargs self
    = (inl (KeyError (no_method_message method_name)), self).
Proof.
  intros Hrun Hattr.
  unfold call_app_method, __check_is_running, __check_app_method_name.
  by rewrite Hrun, Hattr.
Qed.

(** C3, what the code does: [set_app_param] checks that an Application is
    bound and not whether the pool is running, so on a running pool it sets
    the parameter on the bound Application all the same. *)
Theorem set_app_param_skips_running_check (self : RunnerT) param_name value :
  _flag_running (controller self) = true →
  isinstance_BaseApp (__app self) = true →
  set_app_param param_name value self
    = ((set_param_value param_name value (__app self)).1,
       mkAppRunner (controller self)
         (set_param_value param_name value (__app self)).2).
Proof.
  intros _ Hset. unfold set_app_param, __check_app_is_set. rewrite Hset.
  by destruct (set_param_value param_name value (__app self)).
Qed.

Lemma float_below_one (p : float) :
  (p <? 1)%float = true → (1 <=? p)%float = false.
Proof.
  rewrite ltb_spec, leb_spec.
  assert (H1 : Prim2SF 1 = S754_finite false 4503599627370496 (-52))
    by (vm_compute; reflexivity).
  rewrite H1. clear H1. unfold SFltb, SFleb.
  destruct (Prim2SF p) as [s|s| |s m e]; cbn [SFcompare].
  - done.
  - by destruct s.
  - done.
  - destruct s; [done|].
    rewrite (Z.compare_antisym e (-52)).
    destruct (e ?= -52)%Z; cbn [CompOpp]; try done.
    pose proof (Pos.compare_cont_antisym m 4503599627370496 Eq) as Hanti.
    cbn [CompOpp] in Hanti. rewrite <- Hanti.
    by destruct (Pos.compare_cont Eq m 4503599627370496).
Qed.

(** C9: on a progress value of 1 or more the runner calls [suspend()] and
    then [stop()] on itself; on a progress value below 1 it calls
    neither. *)
Theorem full_progress_suspends_then_stops :
  (∀ (self : RunnerT) (progress : float),
     (1 <=? progress)%float = true →
     __check_progress progress self
       = inherited stop (inherited suspend self)) ∧
  (∀ (self : RunnerT) (progress : float),
     (progress <? 1)%float = true →
     __check_progress progress self = self).
Proof.
  split; intros self progress Hp; unfold __check_progress.
  - by rewrite Hp.
  - by rewrite (float_below_one _ Hp).
Qed.

End AppRunnerTheory.

Section AppRunnerRuns.
Import AppRunner.

Lemma set_app_param_skips_running_check_witness :
  set_app_param "n" 7%Z running_runner
    = (inr (), mkAppRunner (mkTestController true []) {["n" := 7%Z]}).
Proof.
  rewrite (set_app_param_skips_running_check running_runner "n" 7%Z);
    [|reflexivity..].
  simpl. rewrite lookup_singleton_eq. simpl. by rewrite insert_singleton_eq.
Defined.

(** The sibling method on the same running pool fails and changes nothing;
    on the stopped pool it runs. *)
Lemma call_app_method_on_test_runner :
  call_app_method "clear" [] ∅ running_runner
    = (inl (RuntimeError running_message), running_runner) ∧
  call_app_method "clear" [] ∅ stopped_runner
    = (inr 1%Z, mkAppRunner (mkTestController false []) ∅).
Proof.
  split.
  - by apply call_app_method_while_running.
  - rewrite call_app_method_when_stopped; [|reflexivity..].
    simpl. by rewrite map_size_singleton.
Qed.

Lemma full_progress_suspends_then_stops_witness :
  __check_progress 1%float running_runner
    = mkAppRunner (mkTestController false [CallSuspend; CallStop])
        {["n" := 1%Z]} ∧
  __check_progress 0.5%float running_runner = running_runner.
Proof.
  split.
  - rewrite (proj1 full_progress_suspends_then_stops running_runner 1%float);
      [reflexivity|vm_compute; reflexivity].
  - apply (proj2 full_progress_suspends_then_stops running_runner 0.5%float).
    vm_compute. reflexivity.
Defined.

End AppRunnerRuns.

(** * Properties of the shared result buffer *)

Section SharedBufferTheory.
Import SharedBuffer.
Context {Data : Type}.

#[local] Abbreviation BufferT := (Buffer Data).

Lemma first_free_spec (fl : list Z) (pos : nat) :
  first_free fl = Some pos →
  fl !! pos = Some 0%Z ∧ ∀ j, j < pos → fl !! j ≠ Some 0%Z.
Proof.
  revert pos. induction fl as [|f fl IH]; intros pos Hff; [done|].
  simpl in Hff. case_bool_decide as Hf.
  - simplify_eq. split; [done|]. intros j Hj. lia.
  - destruct (first_free fl) as [p|]; [|done]. simpl in Hff. simplify_eq.
    destruct (IH p eq_refl) as [Hp Hbefore]. split; [done|].
    intros [|j] Hj; simpl; [congruence|]. apply Hbefore. lia.
Qed.

Lemma first_free_none (fl : list Z) :
  first_free fl = None ↔ ∀ j, fl !! j ≠ Some 0%Z.
Proof.
  induction fl as [|f fl IH]; simpl.
  - split; [intros _ j; by rewrite lookup_nil|done].
  - case_bool_decide as Hf.
    + split; [done|]. intros Hall. destruct (Hall 0). simpl. by subst.
    + destruct (first_free fl) as [p|]; simpl.
      * split; [done|]. intros Hall.
        assert (Some p = None) as Hp by (apply IH; intros j; apply (Hall (S j))).
        done.
      * split; [|done]. intros _ [|j]; simpl; [congruence|].
        by apply (proj1 IH).
Qed.

Lemma run_op_flags_track (st : BufferT * list nat) (op : Op Data) :
  flags_track st → flags_track (run_op st op).
Proof.
  destruct st as [b aw]. intros Hinv. destruct op as [d|slave pos]; simpl.
  - unfold multiprocessing_func.
    destruct (first_free (flag b)) as [pos|] eqn:Hff; simpl; [|done].
    destruct (first_free_spec _ _ Hff) as [Hpos _].
    apply lookup_lt_Some in Hpos as Hlt.
    intros i. simpl. destruct (decide (i = pos)) as [->|Hne].
    + rewrite list_lookup_insert_eq by done. split.
      * split; [intros _; apply elem_of_cons; by left|done].
      * intros f Hf. right. congruence.
    + rewrite list_lookup_insert_ne by done.
      destruct (Hinv i) as [Hi1 Hi2]. simpl in *. split; [|done].
      rewrite elem_of_cons, Hi1. tauto.
  - unfold multiprocessing_store_results. destruct slave; simpl; [done|].
    intros i. simpl. destruct (Hinv i) as [Hi1 Hi2]. simpl in *.
    destruct (decide (i = pos)) as [->|Hne].
    + split.
      * rewrite list_elem_of_filter.
        destruct (decide (pos < length (flag b))).
        -- rewrite list_lookup_insert_eq by done.
           split; [done|]. by intros [? _].
        -- rewrite list_insert_ge by lia. rewrite lookup_ge_None_2 by lia.
           split; [done|]. by intros [? _].
      * intros f Hf. destruct (decide (pos < length (flag b))).
        -- rewrite list_lookup_insert_eq in Hf by done. left. congruence.
        -- rewrite list_insert_ge in Hf by lia. by apply Hi2.
    + rewrite list_lookup_insert_ne by done. split; [|done].
      rewrite list_elem_of_filter, Hi1. tauto.
Qed.

Lemma run_ops_flags_track (ops : list (Op Data)) (st : BufferT * list nat) :
  flags_track st → flags_track (run_ops ops st).
Proof.
  revert st. induction ops as [|op ops IH]; intros st Hinv; [done|].
  simpl. apply IH. by apply run_op_flags_track.
Qed.

(** C6: [multiprocessing_func] takes a slot whose flag is [0], writes the
    result there and sets the flag to [1]; a slot whose flag is [1] keeps
    its flag and its contents through any new write; the consumer's
    [multiprocessing_store_results] reads the slot and sets its flag back to
    [0]; in slave mode [multiprocessing_store_results] leaves the buffer as
    it is.  Over any run from a fresh buffer a flag is [1] exactly for the
    slots written and not consumed since. *)
Theorem slot_flag_marks_pending_result :
  (∀ (d : Data) (b b' : BufferT) pos,
     multiprocessing_func d b = Some (pos, b') →
     flag b !! pos = Some 0%Z ∧ flag b' !! pos = Some 1%Z ∧
     (pos < length (slots b) → slots b' !! pos = Some d)) ∧
  (∀ (d : Data) (b b' : BufferT) pos j,
     multiprocessing_func d b = Some (pos, b') →
     flag b !! j = Some 1%Z →
     flag b' !! j = Some 1%Z ∧ slots b' !! j = slots b !! j) ∧
  (∀ (d : Data) (b : BufferT),
     multiprocessing_func d b = None ↔ ∀ j, flag b !! j ≠ Some 0%Z) ∧
  (∀ (b : BufferT) pos,
     pos < length (flag b) →
     (multiprocessing_store_results false pos b).1 = slots b !! pos ∧
     flag (multiprocessing_store_results false pos b).2 !! pos = Some 0%Z ∧
     slots (multiprocessing_store_results false pos b).2 = slots b) ∧
  (∀ (b : BufferT) pos,
     multiprocessing_store_results true pos b = (None, b)) ∧
  (∀ (n : nat) (zero : Data) (ops : list (Op Data)) i,
     flag (run_ops ops (fresh n zero, [])).1 !! i = Some 1%Z
     ↔ i ∈ (run_ops ops (fresh n zero, [])).2).
Proof.
  split; [|split; [|split; [|split; [|split]]]].
  - intros d b b' pos Hw. unfold multiprocessing_func in Hw.
    destruct (first_free (flag b)) as [p|] eqn:Hff; [|done].
    simpl in Hw. simplify_eq. destruct (first_free_spec _ _ Hff) as [Hp _].
    split; [done|]. simpl. split.
    + apply list_lookup_insert_eq. by apply lookup_lt_Some in Hp.
    + intros Hlt. by apply list_lookup_insert_eq.
  - intros d b b' pos j Hw Hj. unfold multiprocessing_func in Hw.
    destruct (first_free (flag b)) as [p|] eqn:Hff; [|done].
    simpl in Hw. simplify_eq. destruct (first_free_spec _ _ Hff) as [Hp _].
    assert (j ≠ pos) by congruence. simpl.
    by rewrite !list_lookup_insert_ne.
  - intros d b. unfold multiprocessing_func. rewrite <- first_free_none.
    by destruct (first_free (flag b)).
  - intros b pos Hlt. simpl. split; [done|]. split; [|done].
    by apply list_lookup_insert_eq.
  - done.
  - intros n zero ops i.
    apply (run_ops_flags_track ops (fresh n zero, [])).
    intros j. simpl. split.
    + rewrite elem_of_nil. split; [|done]. intros Hj.
      apply lookup_replicate in Hj as [? _]. done.
    + intros f Hf. apply lookup_replicate in Hf as [-> _]. by left.
Qed.

End SharedBufferTheory.

Section SharedBufferRuns.
Import SharedBuffer.

(** [test_multiprocessing_store_results__plain] and [__slave]: after the
    first write slot [0] is flagged, the master's store clears the flag and
    the slave's store leaves it. *)
Lemma slot_flag_marks_pending_result_witness :
  flag (fresh 2 0%Z) !! 0 = Some 0%Z ∧
  flag (mkBuffer [1; 0] [7; 0])%Z !! 0 = Some 1%Z ∧
  (0 < length (slots (fresh 2 0%Z)) →
   slots (mkBuffer [1; 0] [7; 0])%Z !! 0 = Some 7%Z).
Proof.
  apply (proj1 slot_flag_marks_pending_result 7%Z (fresh 2 0%Z)
           (mkBuffer [1; 0] [7; 0])%Z 0).
  reflexivity.
Defined.

Lemma store_results_on_test_buffer :
  multiprocessing_store_results false 0 (mkBuffer [1; 0] [7; 0])%Z
    = (Some 7%Z, mkBuffer [0; 0] [7; 0])%Z ∧
  multiprocessing_store_results true 0 (mkBuffer [1; 0] [7; 0])%Z
    = (None, mkBuffer [1; 0] [7; 0])%Z ∧
  SharedBuffer.multiprocessing_func 8%Z (mkBuffer [1; 0] [7; 0])%Z
    = Some (1, mkBuffer [1; 1]%Z [7; 8]%Z) ∧
  SharedBuffer.multiprocessing_func 9%Z (mkBuffer [1; 1] [7; 8])%Z = None.
Proof. by repeat split. Qed.

End SharedBufferRuns.

(** * Further properties of the worker loop *)

Section ProcessorMoreTheory.
Import Processor.
Context {App Params Config Task Payload : Type}.
Context {app : Application App Params Config Task Payload}.

#[local] Abbreviation WorkerM := (Worker App Task Payload).
#[local] Abbreviation ScheduleM := (Schedule Task Payload).

Ltac worker_cbn :=
  cbn [queues _app _app_carryon _arg trace log with_queues with_app
       with_carryon with_arg input_queue output_queue stop_queue
       aborted_queue put_output put_aborted pop_input pop_stop].

(** ** Answers follow fetches, whatever the outcome *)

Lemma accounted_at_most_one_pending (w : WorkerM) :
  accounted w → at_most_one_pending w.
Proof.
  unfold accounted, at_most_one_pending. destruct (_app_carryon w).
  - intros ->. exists []. rewrite app_nil_r. split; [done|simpl; lia].
  - intros (t & _ & ->). exists [Some t]. split; [done|simpl; lia].
Qed.

Lemma iteration_raised_pending (w w' : WorkerM) :
  accounted w →
  iteration w = (Raised, w') →
  at_most_one_pending w'.
Proof.
  unfold iteration, run_cycle, accounted, at_most_one_pending.
  intros Hacc Hit.
  destruct (stop_queue (queues w)) as [|tok rest] eqn:Hs; [|done].
  simpl in Hit. destruct (_app_carryon w) eqn:Hc.
  - destruct (input_queue (queues w)) as [|[t|] rest] eqn:Hin;
      simpl in Hit; [done| |done].
    exists [Some t].
    destruct (multiprocessing_pre_cycle t (_app w)) as [a0|]; simpl in Hit.
    + destruct (multiprocessing_carryon a0) as [[[] a1]|]; simpl in Hit;
        [|done|].
      * destruct (multiprocessing_func t a1) as [[r a2]|]; [done|].
        simplify_eq. worker_cbn.
        rewrite !inputs_taken_app, !outputs_put_app, !fmap_app, Hacc. simpl.
        rewrite !app_nil_r. split; [done|lia].
      * simplify_eq. worker_cbn.
        rewrite !inputs_taken_app, !outputs_put_app, !fmap_app, Hacc. simpl.
        rewrite !app_nil_r. split; [done|lia].
    + simplify_eq. worker_cbn.
      rewrite !inputs_taken_app, !outputs_put_app, !fmap_app, Hacc. simpl.
      rewrite !app_nil_r. split; [done|lia].
  - destruct Hacc as (t & Harg & Hacc). exists [Some t].
    destruct (multiprocessing_carryon (_app w)) as [[[] a1]|]; simpl in Hit;
      [|done|].
    + rewrite Harg in Hit. simpl in Hit.
      destruct (multiprocessing_func t a1) as [[r a2]|]; [done|].
      simplify_eq. worker_cbn.
      rewrite !inputs_taken_app, !outputs_put_app, !fmap_app, Hacc. simpl.
      rewrite !app_nil_r. split; [done|lia].
    + simplify_eq. worker_cbn.
      rewrite !inputs_taken_app, !outputs_put_app, Hacc. simpl.
      rewrite !app_nil_r. split; [done|lia].
Qed.

Lemma main_loop_pending (sched : ScheduleM) (w : WorkerM) :
  accounted w →
  after_stop (trace w) = None →
  at_most_one_pending (final_worker (main_loop sched w)).
Proof.
  revert w. induction sched as [|acts sched IH]; intros w Hacc Hns.
  - by apply accounted_at_most_one_pending.
  - cbn [main_loop].
    destruct (iteration (env_steps acts w)) as [c w1] eqn:Hit.
    pose proof (env_steps_accounted acts w Hacc) as Hacc'.
    destruct (env_steps_locals acts w) as (_ & _ & _ & Htr).
    destruct c.
    + apply iteration_accounted in Hit; [|done|by rewrite Htr].
      destruct Hit. by apply IH.
    + apply iteration_accounted in Hit; [|done|by rewrite Htr].
      simpl. destruct Hit as [[_ Heq]|[_ Hacc1]].
      * exists []. rewrite app_nil_r. split; [done|simpl; lia].
      * by apply accounted_at_most_one_pending.
    + simpl. by apply (iteration_raised_pending _ _ Hacc').
Qed.

(** X1: at whatever point and in whatever way a run of [app_processor]
    stands (returned, ended by an exception, still running), the envelopes
    the worker has put answer the items it has taken from the input queue
    one for one and in the order taken, and at most one item taken has no
    envelope yet. *)
Theorem answers_follow_fetches
    (qs : Queues Task Payload) (p : Params) (c : Config)
    (kwargs : gmap string bool) (sched : ScheduleM)
    (x : LoopExit App Task Payload) :
  app_processor qs p c kwargs sched = Some x →
  at_most_one_pending (final_worker x).
Proof.
  intros Hrun. unfold app_processor in Hrun.
  destruct (start_worker qs p c) as [w0|] eqn:Hstart; [|done].
  destruct (start_worker_state _ _ _ _ Hstart) as (_ & _ & _ & Hacc & Hns).
  pose proof (main_loop_pending sched w0 Hacc Hns) as Hloop.
  simpl in Hrun. injection Hrun as <-.
  destruct (main_loop sched w0) as [w1 rest|w1|w1]; [|done..].
  simpl in Hloop.
  destruct (wait_loop_spec (wait_for_output_queue kwargs) rest w1)
    as (k & Htr & _).
  destruct Hloop as (pending & Heq & Hlen). exists pending.
  rewrite Htr, inputs_taken_app, outputs_put_app, inputs_taken_sleeps,
    outputs_put_sleeps, !app_nil_r. done.
Qed.

(** ** What the worker takes and puts, against the queues *)

Lemma iteration_conserves (w w' : WorkerM) (c : Ctl)
    (I0 : list (option Task)) (O0 : list (Envelope Task Payload)) :
  iteration w = (c, w') →
  inputs_taken (trace w) ++ input_queue (queues w) = I0 →
  output_queue (queues w) = O0 ++ outputs_put (trace w) →
  inputs_taken (trace w') ++ input_queue (queues w') = I0 ∧
  output_queue (queues w') = O0 ++ outputs_put (trace w').
Proof.
  unfold iteration, run_cycle. intros Hit HI HO.
  destruct (stop_queue (queues w)) as [|tok rest] eqn:Hs.
  - simpl in Hit. destruct (_app_carryon w) eqn:Hc.
    + destruct (input_queue (queues w)) as [|[t|] rest] eqn:Hin;
        simpl in Hit.
      * simplify_eq. worker_cbn.
        rewrite !inputs_taken_app, !outputs_put_app, Hin, HO. simpl.
        by rewrite !app_nil_r.
      * destruct (multiprocessing_pre_cycle t (_app w)) as [a0|];
          simpl in Hit;
          [destruct (multiprocessing_carryon a0) as [[[] a1]|];
             simpl in Hit;
             [destruct (multiprocessing_func t a1) as [[r a2]|]| |]|];
          simplify_eq; worker_cbn;
          rewrite !inputs_taken_app, !outputs_put_app, Hin, HO; simpl;
          rewrite ?app_nil_r, <- ?app_assoc; done.
      * simplify_eq. worker_cbn.
        rewrite !inputs_taken_app, !outputs_put_app, Hin, HO. simpl.
        by rewrite ?app_nil_r, <- ?app_assoc.
    + destruct (multiprocessing_carryon (_app w)) as [[[] a1]|];
        simpl in Hit;
        [destruct (_arg w) as [t|]; simpl in Hit;
           [destruct (multiprocessing_func t a1) as [[r a2]|]|]| |];
        simplify_eq; worker_cbn;
        rewrite !inputs_taken_app, !outputs_put_app, HO; simpl;
        rewrite ?app_nil_r, <- ?app_assoc; done.
  - simplify_eq. worker_cbn.
    rewrite !inputs_taken_app, !outputs_put_app, HO. simpl.
    by rewrite !app_nil_r.
Qed.

Lemma env_steps_io (acts : list (EnvAction Task Payload)) (w : WorkerM) :
  Forall (λ a, touches_io a = false) acts →
  input_queue (queues (env_steps acts w)) = input_queue (queues w) ∧
  output_queue (queues (env_steps acts w)) = output_queue (queues w).
Proof.
  intros Hacts. revert w.
  induction Hacts as [|a acts Ha _ IH]; intros w; [done|].
  simpl. destruct (IH (env_step w a)) as [-> ->].
  by destruct a.
Qed.

Lemma main_loop_conserves (sched : ScheduleM) (w : WorkerM)
    (I0 : list (option Task)) (O0 : list (Envelope Task Payload)) :
  Forall (Forall (λ a, touches_io a = false)) sched →
  inputs_taken (trace w) ++ input_queue (queues w) = I0 →
  output_queue (queues w) = O0 ++ outputs_put (trace w) →
  inputs_taken (trace (final_worker (main_loop sched w)))
    ++ input_queue (queues (final_worker (main_loop sched w))) = I0 ∧
  output_queue (queues (final_worker (main_loop sched w)))
    = O0 ++ outputs_put (trace (final_worker (main_loop sched w))).
Proof.
  intros Hsched. revert w.
  induction Hsched as [|acts sched Hacts _ IH]; intros w HI HO; [done|].
  cbn [main_loop].
  destruct (iteration (env_steps acts w)) as [c w1] eqn:Hit.
  destruct (env_steps_io acts w Hacts) as [Hin Hout].
  destruct (env_steps_locals acts w) as (_ & _ & _ & Htr).
  apply (iteration_conserves _ _ _ I0 O0) in Hit as [HI1 HO1];
    [|by rewrite Htr, Hin|by rewrite Htr, Hout].
  destruct c; [by apply IH|done..].
Qed.


(** X2: as long as the other processes leave the input and the output
    queue alone, the worker consumes the input queue from the front and
    extends the output queue at the back: what it has taken followed by what
    is left is the input queue it started with, and the output queue is the
    one it started with followed by the envelopes it has put.  This holds
    however the main loop stands (left, ended by an exception, running). *)
Theorem worker_uses_queues_in_order
    (qs : Queues Task Payload) (p : Params) (c : Config) (sched : ScheduleM)
    (w0 : WorkerM) :
  start_worker qs p c = Some w0 →
  Forall (Forall (λ a, touches_io a = false)) sched →
  inputs_taken (trace (final_worker (main_loop sched w0)))
    ++ input_queue (queues (final_worker (main_loop sched w0)))
    = input_queue qs ∧
  output_queue (queues (final_worker (main_loop sched w0)))
    = output_queue qs ++ outputs_put (trace (final_worker (main_loop sched w0))).
Proof.
  intros Hstart Hsched.
  destruct (start_worker_state _ _ _ _ Hstart) as (Hq & _ & Htr & _).
  apply main_loop_conserves; [done|..]; rewrite Htr, Hq; simpl; [done|].
  by rewrite app_nil_r.
Qed.

(** ** The sentinel, and what lies behind it *)

Lemma batch_run_rest (ts : list Task) (rest : list (option Task))
    (w : WorkerM) (n : nat) :
  (∀ a, ∃ a', multiprocessing_carryon a = Some (true, a')) →
  (∀ t a, is_Some (multiprocessing_pre_cycle t a)) →
  (∀ t a, is_Some (multiprocessing_func t a)) →
  stop_queue (queues w) = [] →
  _app_carryon w = true →
  input_queue (queues w) = (Some <$> ts) ++ None :: rest →
  length ts < n →
  ∃ w', main_loop (replicate n []) w
        = LoopLeft w' (replicate (n - S (length ts)) []) ∧
    input_queue (queues w') = rest ∧
    output_queue (queues w')
      = output_queue (queues w) ++ results_of ts (_app w) ++ [end_marker] ∧
    inputs_taken (trace w')
      = inputs_taken (trace w) ++ (Some <$> ts) ++ [None].
Proof.
  intros Hgo Hpre Hf. revert w n.
  induction ts as [|t ts IH]; intros w n Hs Hc Hin Hlen.
  - destruct n as [|n]; [simpl in Hlen; lia|]. simpl in Hin.
    replace (S n - S (length (@nil Task))) with n by (simpl; lia).
    cbn [replicate main_loop env_steps foldl].
    rewrite (iteration_sentinel w rest); [|done..].
    eexists. split; [done|]. worker_cbn.
    rewrite Hin, inputs_taken_app. done.
  - destruct n as [|n]; [simpl in Hlen; lia|].
    rewrite fmap_cons in Hin. simpl in Hin, Hlen.
    destruct (Hpre t (_app w)) as [a0 Ha0].
    destruct (Hgo a0) as [a1 Ha1].
    destruct (Hf t a1) as [[r a2] Hr].
    cbn [replicate main_loop env_steps foldl results_of].
    rewrite (iteration_fetch w t ((Some <$> ts) ++ None :: rest) a0 r a1 a2);
      [|done..].
    unfold process_task. rewrite Ha0. simpl. rewrite Ha1. simpl. rewrite Hr.
    match goal with |- ∃ _, main_loop _ ?w = _ ∧ _ => set (w1 := w) end.
    destruct (IH w1 n) as (w' & Hrun & Hi & Ho & Hit).
    { exact Hs. }
    { exact Hc. }
    { unfold w1. worker_cbn. by rewrite Hin. }
    { lia. }
    exists w'. split; [done|]. split; [done|].
    rewrite Ho, Hit. unfold w1. worker_cbn.
    rewrite inputs_taken_app, <- !app_assoc. done.
Qed.

(** X3: a worker takes exactly one sentinel.  With tasks, a sentinel and
    further items on the input queue, no stop token and a carry-on check
    that always says yes, the worker answers the tasks before the sentinel,
    puts the end marker, leaves the loop, and leaves everything behind the
    sentinel on the input queue. *)
Theorem worker_takes_one_sentinel
    (qs : Queues Task Payload) (p : Params) (c : Config) (w0 : WorkerM)
    (ts : list Task) (rest : list (option Task)) (n : nat) :
  start_worker qs p c = Some w0 →
  input_queue qs = (Some <$> ts) ++ None :: rest →
  stop_queue qs = [] →
  (∀ a, ∃ a', multiprocessing_carryon a = Some (true, a')) →
  (∀ t a, is_Some (multiprocessing_pre_cycle t a)) →
  (∀ t a, is_Some (multiprocessing_func t a)) →
  length ts < n →
  ∃ w', main_loop (replicate n []) w0
        = LoopLeft w' (replicate (n - S (length ts)) []) ∧
    input_queue (queues w') = rest ∧
    output_queue (queues w')
      = output_queue qs ++ results_of ts (_app w0) ++ [end_marker] ∧
    inputs_taken (trace w') = (Some <$> ts) ++ [None].
Proof.
  intros Hstart Hin Hs Hgo Hpre Hf Hlen.
  destruct (start_worker_state _ _ _ _ Hstart) as (Hq & Hc & Htr & _).
  destruct (batch_run_rest ts rest w0 n)
    as (w' & Hrun & Hi & Ho & Hit);
    [done|done|done|by rewrite Hq|done|by rewrite Hq|done|].
  exists w'. rewrite Hq, Htr in *. done.
Qed.

(** ** An exception in a hook *)




(** ** A worker with nothing to do *)

Lemma env_steps_not_fed (acts : list (EnvAction Task Payload)) (w : WorkerM) :
  Forall (λ a, feeds a = false) acts →
  stop_queue (queues w) = [] →
  input_queue (queues w) = [] →
  stop_queue (queues (env_steps acts w)) = [] ∧
  input_queue (queues (env_steps acts w)) = [].
Proof.
  intros Hacts. revert w.
  induction Hacts as [|a acts Ha _ IH]; intros w Hs Hin; [done|].
  simpl. apply IH; destruct a; simpl in *; try done;
    by rewrite ?Hs, ?Hin.
Qed.

(** X5: a worker whose carry-on flag is set and that finds the input queue
    empty and no stop token calls no hook: each pass is a stop poll, a
    failed fetch and a 5 ms sleep, for as long as nobody puts an item or a
    stop token.  After [n] such passes it is still in the loop, its instance
    is untouched, and so are the queues apart from what the other processes
    did to them. *)
Theorem idle_worker_backs_off
    (n : nat) (sched : ScheduleM) (w : WorkerM) :
  length sched = n →
  Forall (Forall (λ a, feeds a = false)) sched →
  stop_queue (queues w) = [] →
  input_queue (queues w) = [] →
  _app_carryon w = true →
  ∃ w', main_loop sched w = LoopRunning w' ∧
    trace w' =
      trace w ++
      concat (replicate n [StopGetNowait None; InputGetNowait None; Sleep 5]) ∧
    queues w' = env_only sched (queues w) ∧
    _app w' = _app w ∧ _app_carryon w' = true ∧ _arg w' = _arg w.
Proof.
  revert sched w. induction n as [|n IH]; intros sched w Hlen Hquiet Hs Hin Hc.
  - destruct sched; [|done]. exists w. simpl. by rewrite app_nil_r.
  - destruct sched as [|acts sched]; [done|].
    apply Forall_cons in Hquiet as [Hacts Hquiet].
    destruct (env_steps_locals acts w) as (Ha & Hc' & Harg & Htr).
    destruct (env_steps_not_fed acts w Hacts Hs Hin) as [Hs' Hin'].
    assert (Hit : iteration (env_steps acts w) =
      (Continue, log [StopGetNowait None; InputGetNowait None; Sleep 5]
                   (env_steps acts w))).
    { unfold iteration. rewrite Hs'. simpl. rewrite Hc', Hc, Hin'.
      f_equal. unfold log. simpl. by rewrite <- app_assoc. }
    cbn [main_loop]. rewrite Hit.
    destruct (IH sched (log [StopGetNowait None; InputGetNowait None; Sleep 5]
                          (env_steps acts w)))
      as (w' & Hrun & Htr' & Hq & Ha' & Hc'' & Harg');
      [by simplify_eq/=|done|exact Hs'|exact Hin'|
       by worker_cbn; rewrite Hc'|].
    exists w'. split; [done|]. rewrite Htr', Hq, Ha', Harg'. worker_cbn.
    rewrite Htr, Ha, Harg, <- !app_assoc. unfold env_only.
    cbn [concat replicate]. rewrite foldl_app.
    by rewrite env_steps_queues.
Qed.

(** ** The controller drains the output queue *)

(** X6: the wait for the output queue ends.  If the controller takes one
    envelope from the output queue during each 50 ms sleep, a worker that
    waits with [k] envelopes on the queue returns after at most [k] sleeps.
    It returns after [j] sleeps with the [k - j] envelopes not yet taken
    still on the queue, and [j] is less than [k] only when the poll after
    the [j]th sleep came while the envelopes were still with the feeder
    thread; if no poll does, the worker sleeps exactly [k] times and
    returns with the queue empty. *)
Theorem wait_ends_when_controller_drains
    (lags : list bool) (rest : ScheduleM) (w : WorkerM) :
  length (output_queue (queues w)) = length lags →
  ∃ j w',
    j ≤ length lags ∧
    wait_loop true (drain_schedule lags ++ rest) w
      = LoopLeft w' (drop j (drain_schedule lags) ++ rest) ∧
    trace w' = trace w ++ replicate j (Sleep 50) ∧
    output_queue (queues w') = drop j (output_queue (queues w)) ∧
    input_queue (queues w') = input_queue (queues w) ∧
    _app w' = _app w ∧
    (j < length lags → lags !! j = Some true).
Proof.
  revert w. induction lags as [|lag lags IH]; intros w Hlen.
  - apply nil_length_inv in Hlen. exists 0, w.
    split; [done|]. split.
    + cbn [drain_schedule fmap list_fmap Datatypes.app drop].
      destruct rest; cbn [wait_loop andb]; unfold output_queue_empty;
        by rewrite Hlen.
    + rewrite app_nil_r. repeat split; try done. simpl. lia.
  - destruct (output_queue (queues w)) as [|e out] eqn:Hout; [done|].
    destruct lag.
    + exists 0, w. split; [simpl; lia|]. split.
      * cbn [drain_schedule fmap list_fmap Datatypes.app drop wait_loop andb].
        unfold output_queue_empty. by rewrite Hout.
      * rewrite app_nil_r, Hout. by repeat split.
    + destruct (IH (env_steps [EnvGetOutput] (log [Sleep 50] w)))
        as (j & w' & Hj & Hrun & Htr & Ho & Hi & Ha & Hlag).
      { simpl. rewrite Hout. simpl in *. lia. }
      exists (S j), w'. split; [simpl; lia|]. split.
      * cbn [drain_schedule fmap list_fmap Datatypes.app drop wait_loop andb].
        unfold output_queue_empty at 1. rewrite Hout.
        cbn [existsb is_buffered orb negb]. rewrite bool_decide_false by done.
        exact Hrun.
      * rewrite Htr, Ho, Hi, Ha. simpl. rewrite Hout, <- app_assoc.
        repeat split; try done. intros Hlt. apply Hlag. simpl in Hlt. lia.
Qed.

(** ** Between two polls of the stop queue *)

Lemma iteration_events_shape (w w' : WorkerM) (c : Ctl) :
  iteration w = (c, w') →
  ∃ evs, trace w' = trace w ++ evs ∧
    length evs ≤ 6 ∧
    length (inputs_taken evs) ≤ 1 ∧
    length (outputs_put evs) ≤ 1 ∧
    length (filter (λ e, is_sleep e = true) evs) ≤ 1.
Proof.
  unfold iteration, run_cycle. intros Hit.
  repeat (case_match; simplify_eq/=); rewrite <- ?app_assoc; simpl;
    eexists; (split; [reflexivity|]); simpl; repeat split; lia.
Qed.

(** X10: one pass of the main loop does little, so the stop queue is
    polled again soon: between two polls the worker records at most six
    events, takes at most one item from the input queue, puts at most one
    envelope on the output queue and sleeps at most once. *)
Theorem pass_handles_at_most_one_item
    (w w' : WorkerM) (c : Ctl) (evs : list (Event Task Payload)) :
  iteration w = (c, w') →
  trace w' = trace w ++ evs →
  length evs ≤ 6 ∧
  length (inputs_taken evs) ≤ 1 ∧
  length (outputs_put evs) ≤ 1 ∧
  length (filter (λ e, is_sleep e = true) evs) ≤ 1.
Proof.
  intros Hit Htr.
  destruct (iteration_events_shape _ _ _ Hit) as (evs' & Htr' & Hshape).
  rewrite Htr' in Htr. apply app_inv_head in Htr. by subst.
Qed.

End ProcessorMoreTheory.

(** * Further properties of the application runner *)

Section AppRunnerMoreTheory.
Import AppRunner.
Context {WC AppT Value : Type}.
Context {wc : WorkerController WC} {base_app : BaseApp AppT Value}.

(** X7: [call_app_method] never touches the controller part of the runner,
    and it reaches the bound Application only on a pool that is not running
    and for a method the Application has: on a running pool the answer is
    the [RuntimeError] even for a method that does not exist, on a stopped
    pool a missing method is a [KeyError] naming it, and in both cases the
    runner is left as it was. *)
Theorem call_app_method_guards
    (self : AppRunner WC AppT) (method_name : string) (args : list Value)
    (kwargs : gmap string Value) :
  controller (call_app_method method_name args kwargs self).2
    = controller self ∧
  (_flag_running (controller self) = true →
   call_app_method method_name args kwargs self
     = (inl (RuntimeError running_message), self)) ∧
  (_flag_running (controller self) = false →
   hasattr (__app self) method_name = false →
   call_app_method method_name args kwargs self
     = (inl (KeyError (no_method_message method_name)), self)) ∧
  (__app (call_app_method method_name args kwargs self).2 ≠ __app self →
   _flag_running (controller self) = false ∧
   hasattr (__app self) method_name = true).
Proof.
  unfold call_app_method, __check_is_running, __check_app_method_name.
  destruct (_flag_running (controller self)) eqn:Hrun;
    [by repeat split|].
  destruct (hasattr (__app self) method_name) eqn:Hattr;
    [|by repeat split].
  destruct (call_method method_name args kwargs (__app self)) as [r a].
  by repeat split.
Qed.

End AppRunnerMoreTheory.

(** * Properties of the scan import check *)

Section ScanIoTheory.
Import ScanIo.

Lemma check_keys_none (d : gmap string Value) (_dim : Z) (keys : list string) :
  check_keys d _dim keys = None ↔
  ∀ key, key ∈ keys → is_Some (d !! item_name key _dim).
Proof.
  induction keys as [|k keys IH]; simpl.
  - split; [|done]. intros _ key Hkey. by apply elem_of_nil in Hkey.
  - destruct (d !! item_name k _dim) as [v|] eqn:Hk.
    + rewrite IH. split.
      * intros Hall key Hkey. apply elem_of_cons in Hkey as [->|Hkey];
          [by rewrite Hk|by apply Hall].
      * intros Hall key Hkey. apply Hall, elem_of_cons. by right.
    + split; [done|]. intros Hall.
      destruct (Hall k) as [v Hv]; [apply elem_of_cons; by left|].
      congruence.
Qed.

Lemma check_dims_none (d : gmap string Value) (dims : list Z) :
  check_dims d dims = None ↔
  ∀ _dim, _dim ∈ dims → check_keys d _dim DIM_KEYS = None.
Proof.
  induction dims as [|x dims IH]; cbn [check_dims].
  - split; [|done]. intros _ y Hy. by apply elem_of_nil in Hy.
  - destruct (check_keys d x DIM_KEYS) as [e|] eqn:Hx.
    + split; [done|]. intros Hall.
      rewrite Hall in Hx; [done|]. apply elem_of_cons. by left.
    + rewrite IH. split.
      * intros Hall y Hy. apply elem_of_cons in Hy as [->|Hy];
          [done|by apply Hall].
      * intros Hall y Hy. apply Hall, elem_of_cons. by right.
Qed.

Lemma elem_of_range (a b x : Z) : x ∈ range a b ↔ (a ≤ x < b)%Z.
Proof. unfold range. rewrite elem_of_seqZ. lia. Qed.

(** X8: the check passes exactly on the complete settings: [scan_dim]
    holds an integer [n], [scan_title] is present, and each of the five
    per-dimension items is present for every dimension from [1] to [n].  In
    particular a [scan_dim] of zero or less asks for nothing beyond the two
    keys. *)
Theorem verify_accepts_exactly_complete_settings
    (imported_params : gmap string Value) :
  _verify_all_entries_present imported_params = None ↔
  ∃ v n, imported_params !! "scan_dim" = Some v ∧ as_int v = Some n ∧
    is_Some (imported_params !! "scan_title") ∧
    ∀ _dim key, (1 ≤ _dim ≤ n)%Z → key ∈ DIM_KEYS →
      is_Some (imported_params !! item_name key _dim).
Proof.
  unfold _verify_all_entries_present.
  destruct (imported_params !! "scan_dim") as [v|] eqn:Hdim;
    [|split; [done|by intros (? & ? & ? & _)]].
  destruct (imported_params !! "scan_title") as [title|] eqn:Htitle;
    [|split; [done|intros (? & ? & _ & _ & [? ?] & _); done]].
  destruct (as_int v) as [n|] eqn:Hn;
    [|split; [done|intros (? & ? & ? & ? & _); congruence]].
  rewrite check_dims_none. split.
  - intros Hall. exists v, n. do 3 (split; [done|]).
    intros _dim key Hd Hkey.
    apply (proj1 (check_keys_none imported_params _dim DIM_KEYS)); [|done].
    apply Hall, elem_of_range. lia.
  - intros (v' & n' & Hv & Hn' & _ & Hall) _dim Hd.
    simplify_eq. apply elem_of_range in Hd.
    apply check_keys_none. intros key Hkey. apply Hall; [lia|done].
Qed.

Lemma check_keys_first (d : gmap string Value) (_dim : Z)
    (pre post : list string) (key : string) :
  (∀ k, k ∈ pre → is_Some (d !! item_name k _dim)) →
  d !! item_name key _dim = None →
  check_keys d _dim (pre ++ key :: post)
    = Some (AppRunner.KeyError (setting_missing (item_name key _dim))).
Proof.
  intros Hpre Hkey. induction pre as [|k pre IH]; simpl.
  - by rewrite Hkey.
  - destruct (Hpre k) as [v ->]; [apply elem_of_cons; by left|].
    apply IH. intros k' Hk'. apply Hpre, elem_of_cons. by right.
Qed.

Lemma check_dims_first (d : gmap string Value) (pre post : list Z)
    (_dim : Z) (e : AppRunner.Exception) :
  (∀ x, x ∈ pre → check_keys d x DIM_KEYS = None) →
  check_keys d _dim DIM_KEYS = Some e →
  check_dims d (pre ++ _dim :: post) = Some e.
Proof.
  intros Hpre Hdim.
  induction pre as [|x pre IH]; cbn [check_dims Datatypes.app].
  - by rewrite Hdim.
  - rewrite (Hpre x) by (apply elem_of_cons; by left).
    apply IH. intros y Hy. apply Hpre, elem_of_cons. by right.
Qed.

Lemma range_split (n _dim : Z) :
  (1 ≤ _dim ≤ n)%Z →
  range 1 (n + 1) = range 1 _dim ++ _dim :: range (_dim + 1) (n + 1).
Proof.
  intros Hd. unfold range.
  replace (n + 1 - 1)%Z with ((_dim - 1) + (n + 1 - _dim))%Z by lia.
  rewrite seqZ_app by lia. f_equal.
  rewrite seqZ_cons by lia. f_equal; [lia|]. f_equal; lia.
Qed.

(** X9: on settings with [scan_dim] and [scan_title] present the check
    reports the first missing item in loop order, dimensions outermost: if
    all items of the earlier dimensions and the earlier keys of dimension
    [_dim] are present and the item of [key] for [_dim] is not, the
    [KeyError] names exactly that item. *)
Theorem verify_reports_first_missing_item
    (imported_params : gmap string Value) (v : Value) (n _dim : Z)
    (pre post : list string) (key : string) :
  imported_params !! "scan_dim" = Some v →
  as_int v = Some n →
  is_Some (imported_params !! "scan_title") →
  (1 ≤ _dim ≤ n)%Z →
  DIM_KEYS = pre ++ key :: post →
  (∀ d k, (1 ≤ d < _dim)%Z → k ∈ DIM_KEYS →
     is_Some (imported_params !! item_name k d)) →
  (∀ k, k ∈ pre → is_Some (imported_params !! item_name k _dim)) →
  imported_params !! item_name key _dim = None →
  _verify_all_entries_present imported_params
    = Some (AppRunner.KeyError (setting_missing (item_name key _dim))).
Proof.
  intros Hdim Hn [title Htitle] Hd Hkeys Hearlier Hpre Hmissing.
  unfold _verify_all_entries_present. rewrite Hdim, Htitle, Hn.
  rewrite (range_split n _dim Hd). apply check_dims_first.
  - intros x Hx. apply elem_of_range in Hx. apply check_keys_none.
    intros k Hk. by apply Hearlier.
  - rewrite Hkeys. by apply check_keys_first.
Qed.

End ScanIoTheory.

(** * Further worked runs *)

Section MoreRuns.
Import Processor.

Lemma answers_follow_fetches_witness :
  ∃ x : LoopExit Z Z Z,
    app_processor faulty_queues () () ∅ (replicate 3 []) = Some x ∧
    at_most_one_pending (final_worker x).
Proof.
  eexists. split; [vm_compute; reflexivity|].
  eapply (answers_follow_fetches faulty_queues () () ∅ (replicate 3 [])).
  vm_compute. reflexivity.
Defined.

Lemma worker_uses_queues_in_order_witness :
  inputs_taken
    (trace (final_worker (main_loop stop_after_first_pass
                            (mkWorker faulty_queues 0%Z true None []))))
    ++ input_queue
         (queues (final_worker (main_loop stop_after_first_pass
                                  (mkWorker faulty_queues 0%Z true None []))))
    = input_queue faulty_queues ∧
  output_queue
    (queues (final_worker (main_loop stop_after_first_pass
                             (mkWorker faulty_queues 0%Z true None []))))
    = output_queue faulty_queues
      ++ outputs_put
           (trace (final_worker (main_loop stop_after_first_pass
                                   (mkWorker faulty_queues 0%Z true None [])))).
Proof.
  apply (worker_uses_queues_in_order faulty_queues () ()
           stop_after_first_pass).
  - reflexivity.
  - repeat constructor.
Defined.

Lemma worker_takes_one_sentinel_witness :
  ∃ w' : Worker unit Z Z,
    main_loop (replicate 2 []) (mkWorker two_worker_queues () true None [])
      = LoopLeft w' (replicate (2 - 2) []) ∧
    input_queue (queues w') = [Some 1%Z; None] ∧
    output_queue (queues w')
      = [] ++ results_of [0%Z] () ++ [end_marker] ∧
    inputs_taken (trace w') = (Some <$> [0%Z]) ++ [None].
Proof.
  apply (worker_takes_one_sentinel two_worker_queues () ()
           (mkWorker two_worker_queues () true None []) [0%Z]
           [Some 1%Z; None] 2).
  - reflexivity.
  - reflexivity.
  - reflexivity.
  - intros a. exists a. reflexivity.
  - intros t a. exists a. reflexivity.
  - intros t a. exists (t, a). reflexivity.
  - simpl. lia.
Defined.


Lemma idle_worker_backs_off_witness :
  ∃ w' : Worker unit Z Z,
    main_loop [[]; [EnvGetOutput]; []] idle_worker = LoopRunning w' ∧
    trace w' =
      trace idle_worker ++
      concat (replicate 3 [StopGetNowait None; InputGetNowait None; Sleep 5]) ∧
    queues w' = env_only [[]; [EnvGetOutput]; []] (queues idle_worker) ∧
    _app w' = _app idle_worker ∧ _app_carryon w' = true ∧
    _arg w' = _arg idle_worker.
Proof.
  apply (idle_worker_backs_off 3 [[]; [EnvGetOutput]; []] idle_worker).
  - reflexivity.
  - repeat constructor.
  - reflexivity.
  - reflexivity.
  - reflexivity.
Defined.

Lemma wait_ends_when_controller_drains_witness :
  ∃ j (w' : Worker unit Z Z),
    j ≤ length [false; true] ∧
    wait_loop true (drain_schedule [false; true] ++ []) waiting_worker
      = LoopLeft w' (drop j (drain_schedule [false; true]) ++ []) ∧
    trace w' = trace waiting_worker ++ replicate j (Sleep 50) ∧
    output_queue (queues w')
      = drop j (output_queue (queues waiting_worker)) ∧
    input_queue (queues w') = input_queue (queues waiting_worker) ∧
    _app w' = _app waiting_worker ∧
    (j < length [false; true] → [false; true] !! j = Some true).
Proof.
  apply (wait_ends_when_controller_drains [false; true] [] waiting_worker).
  reflexivity.
Defined.

Lemma pass_handles_at_most_one_item_witness :
  length [StopGetNowait None; InputGetNowait (Some (Some 5%Z)); PreCycle 5%Z;
          Carryon (Task:=Z) (Payload:=Z) false] ≤ 6 ∧
  length (inputs_taken
            [StopGetNowait None; InputGetNowait (Some (Some 5%Z));
             PreCycle 5%Z; Carryon (Task:=Z) (Payload:=Z) false]) ≤ 1 ∧
  length (outputs_put
            [StopGetNowait None; InputGetNowait (Some (Some 5%Z));
             PreCycle 5%Z; Carryon (Task:=Z) (Payload:=Z) false]) ≤ 1 ∧
  length (filter (λ e, is_sleep e = true)
            [StopGetNowait None; InputGetNowait (Some (Some 5%Z));
             PreCycle 5%Z; Carryon (Task:=Z) (Payload:=Z) false]) ≤ 1.
Proof.
  apply (pass_handles_at_most_one_item patient_worker
           (iteration patient_worker).2 (iteration patient_worker).1).
  - reflexivity.
  - reflexivity.
Defined.

Lemma verify_accepts_exactly_complete_settings_witness :
  ScanIo._verify_all_entries_present ScanIo.line_scan = None.
Proof.
  apply (proj2 (verify_accepts_exactly_complete_settings ScanIo.line_scan)).
  exists (ScanIo.VInt 1), 1%Z. split; [reflexivity|]. split; [reflexivity|].
  split; [by eexists|].
  intros _dim key Hd Hkey. assert (_dim = 1%Z) as -> by lia.
  unfold ScanIo.DIM_KEYS in Hkey.
  repeat (apply elem_of_cons in Hkey as [->|Hkey]; [by eexists|]).
  by apply elem_of_nil in Hkey.
Defined.

Lemma verify_reports_first_missing_item_witness :
  ScanIo._verify_all_entries_present ScanIo.line_scan_without_unit
    = Some (AppRunner.KeyError
              (ScanIo.setting_missing (ScanIo.item_name "unit" 1))).
Proof.
  apply (verify_reports_first_missing_item ScanIo.line_scan_without_unit
           (ScanIo.VInt 1) 1 1 ["scan_label"; "n_points"; "delta"]
           ["offset"] "unit").
  - reflexivity.
  - reflexivity.
  - by eexists.
  - lia.
  - reflexivity.
  - intros d k Hd. lia.
  - intros k Hk.
    repeat (apply elem_of_cons in Hk as [->|Hk]; [by eexists|]).
    by apply elem_of_nil in Hk.
  - reflexivity.
Defined.

End MoreRuns.

Section MoreRunnerRuns.
Import AppRunner.

Lemma call_app_method_guards_witness :
  call_app_method "missing" [] ∅ stopped_runner
    = (inl (KeyError (no_method_message "missing")),
       stopped_runner) ∧
  call_app_method "missing" [] ∅ running_runner
    = (inl (RuntimeError running_message),
       running_runner).
Proof.
  split.
  - apply (proj1 (proj2 (proj2
             (call_app_method_guards stopped_runner "missing"
                [] ∅)))); reflexivity.
  - apply (proj1 (proj2
             (call_app_method_guards running_runner "missing"
                [] ∅))); reflexivity.
Defined.

End MoreRunnerRuns.
